(** * BinderHub build executors and the build-pod cleaner

  A shallow embedding of [binderhub/build.py]: the progress events, the
  [BuildExecutor] base class, [KubernetesBuildExecutor] (affinity, pod
  submission, the watch loop, log streaming, cleanup) and
  [KubernetesCleaner].

  Conventions of the embedding.
  - A Python [str] is a [string] holding its UTF-8 encoding; [bytes] is a
    [string] too.
  - A method that can raise returns a [result]; a method that talks to the
    cluster is a function on an explicit state that records the progress
    queue, the API calls made so far and the stop event, and that is driven
    by an explicit description of what the cluster answers.
  - Library functions the module calls ([json.loads], [json.dumps],
    [bytes.decode]) are the operations of the class [PyLib]; the development
    is parametric in them, and [py_model] is an executable instance. *)

From Stdlib Require Import ZArith String Ascii List Bool Lia.
From stdpp Require Import base strings list gmap pretty.

#[local] Set Warnings "-register-all".
#[local] Open Scope Z_scope.

(** ** Python values, exceptions and the result of a call *)

Module Py.

(** The exceptions the module can see.  [ApiException] carries the HTTP
    status of [kubernetes.client.rest.ApiException]; [OtherException] stands
    for any exception that is not an [ApiException] (a transport error of
    urllib3, for instance), named by its class. *)
Inductive exn : Type :=
| ApiException (status : Z)
| IndexError
| KeyError (key : string)
| TypeError
| UnicodeDecodeError
| OtherException (cls : string).

Inductive result (A : Type) : Type :=
| Ok (a : A)
| Raise (e : exn).
#[global] Arguments Ok {A} a.
#[global] Arguments Raise {A} e.

Definition bind {A B} (r : result A) (k : A -> result B) : result B :=
  match r with
  | Ok a => k a
  | Raise e => Raise e
  end.

(** [for x in xs: ys.append(f(x))], stopping at the first exception. *)
Fixpoint mapM {A B} (f : A -> result B) (xs : list A) : result (list B) :=
  match xs with
  | [] => Ok []
  | x :: xs' =>
      bind (f x) (fun y => bind (mapM f xs') (fun ys => Ok (y :: ys)))
  end.

(** A parsed JSON document (what [json.loads] returns).  Numbers are
    integers; the documents read here carry no floats. *)
Inductive json : Type :=
| JNull
| JBool (b : bool)
| JInt (z : Z)
| JStr (s : string)
| JList (l : list json)
| JDict (kv : list (string * json)).

(** Truth value testing ([if x:]). *)
Class Truthy (A : Type) := truthy : A -> bool.

#[global] Instance truthy_str : Truthy string :=
  fun s => match s with EmptyString => false | String _ _ => true end.
#[global] Instance truthy_int : Truthy Z := fun z => negb (z =? 0).
#[global] Instance truthy_list {A} : Truthy (list A) :=
  fun l => match l with [] => false | _ :: _ => true end.
#[global] Instance truthy_option {A} : Truthy (option A) :=
  fun o => match o with None => false | Some _ => true end.
#[global] Instance truthy_json : Truthy json :=
  fun j =>
    match j with
    | JNull => false
    | JBool b => b
    | JInt z => truthy z
    | JStr s => truthy s
    | JList l => truthy l
    | JDict kv => truthy kv
    end.

(** [d[key]] on an association list in insertion order. *)
Fixpoint assoc {V} (key : string) (kv : list (string * V)) : option V :=
  match kv with
  | [] => None
  | (k, v) :: kv' => if String.eqb k key then Some v else assoc key kv'
  end.

(** [j[key]] for a string key: a dict looks the key up, anything else is not
    subscriptable by a string. *)
Definition getitem (j : json) (key : string) : result json :=
  match j with
  | JDict kv =>
      match assoc key kv with
      | Some v => Ok v
      | None => Raise (KeyError key)
      end
  | _ => Raise TypeError
  end.

(** [for x in j]: a list yields its elements, a dict its keys, a string its
    characters; the other values are not iterable. *)
Definition iterate (j : json) : result (list json) :=
  match j with
  | JList l => Ok l
  | JDict kv => Ok (map (fun p => JStr (fst p)) kv)
  | JStr s => Ok (map (fun c => JStr (String c EmptyString)) (list_ascii_of_string s))
  | _ => Raise TypeError
  end.

(** [l[0]]. *)
Definition first {A} (l : list A) : result A :=
  match l with
  | [] => Raise IndexError
  | x :: _ => Ok x
  end.

(** [str(n)] for an integer. *)
Definition str_int (z : Z) : string := pretty z.

(** The library functions used by the module. *)
Class PyLib : Type := {
  (** [b.decode("utf-8")]: [None] when it raises [UnicodeDecodeError]. *)
  decode_utf8 : string -> option string;
  (** whether [json.loads(s)] returns (as opposed to raising [ValueError]). *)
  json_loads_ok : string -> bool;
  (** [json.dumps(j)]. *)
  json_dumps : json -> string
}.

End Py.
Export Py.

(** ** ProgressEvent *)

Module ProgressEvent.

Inductive Kind : Type :=
| BUILD_STATUS_CHANGE
| LOG_MESSAGE.

Inductive BuildStatus : Type :=
| PENDING
| RUNNING
| BUILT
| FAILED
| UNKNOWN.

(** [payload: Union[str, BuildStatus]]. *)
Inductive Payload : Type :=
| Status (s : BuildStatus)
| Text (s : string).

Record t : Type := ProgressEvent { kind : Kind; payload : Payload }.

(** The terminal status events: a status change to [BUILT] or [FAILED]. *)
Definition is_terminal (e : t) : bool :=
  match kind e, payload e with
  | BUILD_STATUS_CHANGE, Status BUILT => true
  | BUILD_STATUS_CHANGE, Status FAILED => true
  | _, _ => false
  end.

Definition terminal_events (q : list t) : list t := List.filter is_terminal q.

End ProgressEvent.
Export ProgressEvent(Kind(..), BuildStatus(..), Payload(..), ProgressEvent).

(** ** The Kubernetes objects and API calls the module uses *)

Module Kube.

Inductive V1Affinity : Type :=
| node_affinity_preferred (weight : Z) (key operator : string) (values : list json)
| pod_anti_affinity_preferred (weight : Z) (topology_key : string)
    (match_labels : list (string * string)).

Record V1VolumeMount : Type := {
  mount_path : string;
  mount_name : string;
  sub_path : option string;
}.

Inductive V1Volume : Type :=
| host_path_volume (name path type : string)
| secret_volume (name secret_name : string).

Record V1EnvVar : Type := { env_name : string; env_value : string }.

Record V1Toleration : Type := {
  toleration_key : string;
  toleration_operator : string;
  toleration_value : string;
  toleration_effect : string;
}.

Record V1Container : Type := {
  image : string;
  container_name : string;
  args : list string;
  volume_mounts : list V1VolumeMount;
  limits : list (string * Z);
  requests_memory : Z;
  requests_cpu : option string;
  env : list V1EnvVar;
}.

Record V1PodSpec : Type := {
  containers : list V1Container;
  tolerations : list V1Toleration;
  node_selector : list (string * string);
  volumes : list V1Volume;
  restart_policy : string;
  affinity : V1Affinity;
  image_pull_secrets : list string;
}.

(** A pod, as built for creation (with a [spec]) or as reported by the
    cluster (with a [status]).  Times are microseconds since the epoch. *)
Record V1Pod : Type := {
  metadata_name : string;
  metadata_labels : list (string * string);
  metadata_annotations : option (list (string * string));
  spec : option V1PodSpec;
  status_phase : string;
  status_start_time : option Z;
}.

(** The requests sent to the API server, with the arguments that matter
    ([_request_timeout] and [_preload_content] are left out). *)
Inductive ApiCall : Type :=
| list_namespaced_pod (namespace label_selector : string)
| create_namespaced_pod (namespace : string) (body : V1Pod)
| watch_namespaced_pod (namespace label_selector : string) (timeout_seconds : Z)
| read_namespaced_pod_log (name namespace : string) (follow : bool) (tail_lines : Z)
| delete_namespaced_pod (name namespace : string) (grace_period_seconds : Z).

Definition is_delete (c : ApiCall) : bool :=
  match c with delete_namespaced_pod _ _ _ => true | _ => false end.

Definition is_create (c : ApiCall) : bool :=
  match c with create_namespaced_pod _ _ => true | _ => false end.

Definition is_watch (c : ApiCall) : bool :=
  match c with watch_namespaced_pod _ _ _ => true | _ => false end.

(** What arrives while a blocking iteration is in progress: the next item of
    the iteration, or a call of [stop()] by another thread. *)
Inductive Incoming (A : Type) : Type :=
| Item (a : A)
| StopCalled.
#[global] Arguments Item {A} a.
#[global] Arguments StopCalled {A}.

(** An iteration over a response: what arrives, and how the iteration ends
    (exhausted, or with an exception). *)
Record Stream (A : Type) : Type := {
  items : list (Incoming A);
  ending : option exn;
}.
#[global] Arguments items {A} s.
#[global] Arguments ending {A} s.

(** A watch event [f]: [f["type"]] and [f["object"]]. *)
Record WatchEvent : Type := { type : string; object : V1Pod }.

End Kube.
Export Kube.

(** ** Names imported from [binderhub/utils.py] *)

Module Utils.

Section Rendezvous.
Context {B : Type} (hash : B -> string -> Z).

Fixpoint insert_by_score (key : string) (b : B) (ranked : list B) : list B :=
  match ranked with
  | [] => [b]
  | b' :: rest =>
      if hash b' key <=? hash b key
      then b :: ranked
      else b' :: insert_by_score key b rest
  end.

(** Modelled from the spec: [rendezvous_rank] of [binderhub/utils.py] is not
    among the sources.  The candidates are ranked by a score that hashes the
    candidate together with the key, highest score first; the hash itself is
    the parameter [hash]. *)
Definition rendezvous_rank (buckets : list B) (key : string) : list B :=
  foldr (insert_by_score key) [] buckets.

End Rendezvous.

End Utils.

(** ** BuildExecutor *)

Module BuildExecutor.

(** The configurable traits.  [registry_credentials] is a dict whose values
    are strings; [memory_limit] is the number of bytes. *)
Record Config : Type := {
  name : string;
  repo_url : string;
  ref : string;
  image_name : string;
  git_credentials : string;
  push_secret : string;
  registry_credentials : list (string * string);
  memory_limit : Z;
  appendix : string;
  repo2docker_extra_args : list string;
}.

Definition get_r2d_cmd_options (self : Config) : list string :=
  let r2d_options :=
    [ "--ref=" +:+ ref self;
      "--image=" +:+ image_name self;
      "--no-clean";
      "--no-run";
      "--json-logs";
      "--user-name=jovyan";
      "--user-id=1000" ] in
  let r2d_options :=
    if truthy (appendix self)
    then r2d_options ++ ["--appendix"; appendix self]
    else r2d_options in
  let r2d_options :=
    if truthy (push_secret self)
    then r2d_options ++ ["--push"]
    else r2d_options in
  let r2d_options :=
    if truthy (memory_limit self)
    then (r2d_options ++ ["--build-memory-limit"]) ++ [str_int (memory_limit self)]
    else r2d_options in
  r2d_options ++ repo2docker_extra_args self.

Definition get_cmd (self : Config) : list string :=
  let cmd := ["jupyter-repo2docker"] ++ get_r2d_cmd_options self in
  cmd ++ [repo_url self].

(** The mutable part of an executor: the progress queue [q] (oldest event
    first; [main_loop.add_callback] hands the events over in order) and the
    [threading.Event] [stop_event]. *)
Record State : Type := {
  q : list ProgressEvent.t;
  stop_event : bool;
}.

Definition progress (kind : Kind) (payload : Payload) (st : State) : State :=
  {| q := q st ++ [ProgressEvent kind payload]; stop_event := stop_event st |}.

Definition stop (st : State) : State :=
  {| q := q st; stop_event := true |}.

End BuildExecutor.

(** ** KubernetesBuildExecutor *)

Module KubernetesBuildExecutor.

Record Config : Type := {
  base : BuildExecutor.Config;
  namespace : string;
  build_image : string;
  image_pull_secrets : list string;
  docker_host : option string;
  cpu_request : string;
  memory_request : Z;
  node_selector : list (string * string);
  extra_envs : list (string * string);
  log_tail_lines : Z;
  sticky_builds : bool;
}.

Definition name (self : Config) : string := BuildExecutor.name (base self).
Definition repo_url (self : Config) : string := BuildExecutor.repo_url (base self).
Definition _component_label : string := "binderhub-build".

(** What the cluster answers to one executor: the listing read by
    [get_affinity], the answer to the create call, the answer to the k-th
    delete call, the successive watch streams and the log stream.  An answer
    [None] means the call returned. *)
Record Cluster : Type := {
  image_builder_pods : result json;
  create_answer : option exn;
  delete_answer : nat -> option exn;
  watch_streams : list (Stream WatchEvent);
  pod_log : result (Stream string);
}.

(** The executor while it runs: the inherited mutable attributes, the API
    calls made so far (oldest first) and [self.pod]. *)
Record State : Type := {
  super : BuildExecutor.State;
  api_calls : list ApiCall;
  pod : option V1Pod;
}.

Definition q (st : State) : list ProgressEvent.t := BuildExecutor.q (super st).
Definition stop_event (st : State) : bool := BuildExecutor.stop_event (super st).

Definition initial : State :=
  {| super := {| BuildExecutor.q := []; BuildExecutor.stop_event := false |};
     api_calls := [];
     pod := None |}.

Definition inherited (f : BuildExecutor.State -> BuildExecutor.State) (st : State) : State :=
  {| super := f (super st); api_calls := api_calls st; pod := pod st |}.

Definition progress (kind : Kind) (payload : Payload) : State -> State :=
  inherited (BuildExecutor.progress kind payload).

Definition stop : State -> State := inherited BuildExecutor.stop.

Definition call (c : ApiCall) (st : State) : State :=
  {| super := super st; api_calls := api_calls st ++ [c]; pod := pod st |}.

Definition set_pod (p : V1Pod) (st : State) : State :=
  {| super := super st; api_calls := api_calls st; pod := Some p |}.

(** How a blocking method ends.  [Watching] is the model's way of saying that
    the cluster description has no further watch stream to offer while the
    loop would subscribe again. *)
Inductive outcome : Type :=
| Returned
| Raised (e : exn)
| Watching.

Section Methods.
Context {lib : PyLib}.
(** The hash behind [rendezvous_rank], and [urlparse(url).path]. *)
Variable hash : json -> string -> Z.
Variable urlparse_path : string -> string.
Variable self : Config.
Variable cluster : Cluster.

Definition get_affinity (st : State) : State * result V1Affinity :=
  let st := call (list_namespaced_pod (namespace self) "component=image-builder,app=binder") st in
  match image_builder_pods cluster with
  | Raise e => (st, Raise e)
  | Ok image_builder_pods =>
      if sticky_builds self && truthy image_builder_pods then
        (st,
         bind (getitem image_builder_pods "items") (fun pods =>
         bind (iterate pods) (fun pods =>
         bind (mapM (fun pod => bind (getitem pod "spec") (fun spec => getitem spec "nodeName")) pods)
           (fun node_names =>
         let ranked_nodes := Utils.rendezvous_rank hash node_names (repo_url self) in
         bind (first ranked_nodes) (fun best_node_name =>
         Ok (node_affinity_preferred 100 "kubernetes.io/hostname" "In" [best_node_name]))))))
      else
        (st, Ok (pod_anti_affinity_preferred 100 "kubernetes.io/hostname"
                   [("component", _component_label)]))
  end.

Definition get_builder_volumes : list V1Volume * list V1VolumeMount :=
  let volume_mounts := [] in
  let volumes := [] in
  let '(volumes, volume_mounts) :=
    match docker_host self with
    | Some docker_host =>
        (volumes ++ [host_path_volume "docker-socket" (urlparse_path docker_host) "Socket"],
         volume_mounts ++ [{| mount_path := "/var/run/docker.sock";
                              mount_name := "docker-socket";
                              sub_path := None |}])
    | None => (volumes, volume_mounts)
    end in
  if negb (truthy (BuildExecutor.registry_credentials (base self)))
     && truthy (BuildExecutor.push_secret (base self))
  then
    (volumes ++ [secret_volume "docker-config" (BuildExecutor.push_secret (base self))],
     volume_mounts ++ [{| mount_path := "/root/.docker/config.json";
                          mount_name := "docker-config";
                          sub_path := Some "config.json" |}])
  else (volumes, volume_mounts).

Definition get_image_pull_secrets : list string := image_pull_secrets self.

(** The environment of the build container. *)
Definition build_env : list V1EnvVar :=
  let env := map (fun kv => {| env_name := fst kv; env_value := snd kv |}) (extra_envs self) in
  let env :=
    if truthy (BuildExecutor.git_credentials (base self))
    then env ++ [{| env_name := "GIT_CREDENTIAL_ENV";
                    env_value := BuildExecutor.git_credentials (base self) |}]
    else env in
  if truthy (BuildExecutor.registry_credentials (base self))
  then env ++ [{| env_name := "CONTAINER_ENGINE_REGISTRY_CREDENTIALS";
                  env_value :=
                    json_dumps (JDict (map (fun kv => (fst kv, JStr (snd kv)))
                                         (BuildExecutor.registry_credentials (base self)))) |}]
  else env.

(** The pod handed to [create_namespaced_pod]. *)
Definition build_pod (affinity : V1Affinity) : V1Pod :=
  let '(volumes, volume_mounts) := get_builder_volumes in
  {| metadata_name := name self;
     metadata_labels := [("name", name self); ("component", _component_label)];
     metadata_annotations := Some [("binder-repo", repo_url self)];
     spec := Some
       {| containers :=
            [ {| image := build_image self;
                 container_name := "builder";
                 args := BuildExecutor.get_cmd (base self);
                 volume_mounts := volume_mounts;
                 limits := [("memory", BuildExecutor.memory_limit (base self))];
                 requests_memory := memory_request self;
                 requests_cpu :=
                   if negb (truthy (cpu_request self)) then None else Some (cpu_request self);
                 env := build_env |} ];
          tolerations :=
            [ {| toleration_key := "hub.jupyter.org/dedicated";
                 toleration_operator := "Equal";
                 toleration_value := "user";
                 toleration_effect := "NoSchedule" |};
              {| toleration_key := "hub.jupyter.org_dedicated";
                 toleration_operator := "Equal";
                 toleration_value := "user";
                 toleration_effect := "NoSchedule" |} ];
          Kube.node_selector := node_selector self;
          Kube.volumes := volumes;
          restart_policy := "Never";
          Kube.affinity := affinity;
          Kube.image_pull_secrets := get_image_pull_secrets |};
     status_phase := "";
     status_start_time := None |}.

(** [cleanup()]: the k-th delete call of the run gets the k-th answer. *)
Definition cleanup (st : State) : State * result unit :=
  let k := length (List.filter is_delete (api_calls st)) in
  let st := call (delete_namespaced_pod (name self) (namespace self) 0) st in
  match delete_answer cluster k with
  | None => (st, Ok tt)
  | Some (ApiException status) =>
      if status =? 404 then (st, Ok tt) else (st, Raise (ApiException status))
  | Some e => (st, Raise e)
  end.

(** The status event for a phase reported on an event that is not a deletion;
    an unrecognised phase only warns. *)
Definition dispatch_phase (phase : string) (st : State) : State :=
  if String.eqb phase "Pending" then progress BUILD_STATUS_CHANGE (Status PENDING) st
  else if String.eqb phase "Running" then progress BUILD_STATUS_CHANGE (Status RUNNING) st
  else if String.eqb phase "Succeeded" then st
  else if String.eqb phase "Failed" then progress BUILD_STATUS_CHANGE (Status FAILED) st
  else if String.eqb phase "Unknown" then progress BUILD_STATUS_CHANGE (Status UNKNOWN) st
  else st.

(** The body of [for f in w.stream(...)] for one event; [Some o] when the
    body leaves [submit] (by [return] or by an exception). *)
Definition handle_event (f : WatchEvent) (st : State) : State * option outcome :=
  if String.eqb (type f) "DELETED" then
    let phase := status_phase (object f) in
    if String.eqb phase "Succeeded"
    then (progress BUILD_STATUS_CHANGE (Status BUILT) st, Some Returned)
    else (progress BUILD_STATUS_CHANGE (Status FAILED) st, Some Returned)
  else
    let st := set_pod (object f) st in
    let st :=
      if negb (stop_event st)
      then dispatch_phase (status_phase (object f)) st
      else st in
    if String.eqb (status_phase (object f)) "Succeeded" then
      match cleanup st with
      | (st, Ok _) => (st, None)
      | (st, Raise e) => (st, Some (Raised e))
      end
    else if String.eqb (status_phase (object f)) "Failed" then
      match cleanup st with
      | (st, Ok _) => (st, None)
      | (st, Raise e) => (st, Some (Raised e))
      end
    else (st, None).

(** [for f in w.stream(...)] over what arrives on one watch stream. *)
Fixpoint watch_events (arriving : list (Incoming WatchEvent)) (st : State)
  : State * option outcome :=
  match arriving with
  | [] => (st, None)
  | StopCalled :: rest => watch_events rest (stop st)
  | Item f :: rest =>
      match handle_event f st with
      | (st, Some o) => (st, Some o)
      | (st, None) => watch_events rest st
      end
  end.

(** [while not self.stop_event.is_set(): ...], one watch stream per turn. *)
Fixpoint watch_loop (streams : list (Stream WatchEvent)) (st : State) : State * outcome :=
  if stop_event st then (st, Returned)
  else
    match streams with
    | [] => (st, Watching)
    | w :: streams' =>
        let st := call (watch_namespaced_pod (namespace self) ("name=" +:+ name self) 30) st in
        match watch_events (items w) st with
        | (st, Some o) => (st, o)
        | (st, None) =>
            match ending w with
            | Some e => (st, Raised e)
            | None =>
                if stop_event st then (st, Returned)
                else watch_loop streams' st
            end
        end
    end.

Definition submit (st : State) : State * outcome :=
  match get_affinity st with
  | (st, Raise e) => (st, Raised e)
  | (st, Ok affinity) =>
      let st := set_pod (build_pod affinity) st in
      let st := call (create_namespaced_pod (namespace self) (build_pod affinity)) st in
      match create_answer cluster with
      | Some (ApiException status) =>
          if status =? 409
          then watch_loop (watch_streams cluster) st
          else (st, Raised (ApiException status))
      | Some e => (st, Raised e)
      | None => watch_loop (watch_streams cluster) st
      end
  end.

(** The body of [for line in ...] of [stream_logs] for one line; [Some o] when
    the body leaves the method. *)
Definition handle_line (line : string) (st : State) : State * option outcome :=
  if stop_event st then (st, Some Returned)
  else
    match decode_utf8 line with
    | None => (st, Some (Raised UnicodeDecodeError))
    | Some line =>
        let line :=
          if json_loads_ok line then line
          else json_dumps (JDict [("phase", JStr "unknown"); ("message", JStr line)]) in
        (progress LOG_MESSAGE (Text line) st, None)
    end.

Fixpoint log_lines (arriving : list (Incoming string)) (st : State) : State * option outcome :=
  match arriving with
  | [] => (st, None)
  | StopCalled :: rest => log_lines rest (stop st)
  | Item line :: rest =>
      match handle_line line st with
      | (st, Some o) => (st, Some o)
      | (st, None) => log_lines rest st
      end
  end.

Definition stream_logs (st : State) : State * outcome :=
  let st := call (read_namespaced_pod_log (name self) (namespace self) true (log_tail_lines self)) st in
  match pod_log cluster with
  | Raise e => (st, Raised e)
  | Ok log =>
      match log_lines (items log) st with
      | (st, Some o) => (st, o)
      | (st, None) =>
          match ending log with
          | Some e => (st, Raised e)
          | None => (st, Returned)
          end
      end
  end.

End Methods.

End KubernetesBuildExecutor.

(** ** KubernetesCleaner *)

Module KubernetesCleaner.

Record Config : Type := {
  namespace : string;
  max_age : Z;
}.

(** The records written to [app_log]. *)
Inductive LogRecord : Type :=
| debug_build_pods (count : nat)
| info_deleting (phase name repo : string)
| info_deleting_long_running (name repo : string)
| info_deleted (deleted : Z) (total : nat)
| debug_phase_summary (phases : gmap string Z).

(** The locals of [cleanup] that outlive one turn of its loop, the API calls
    made so far and the log. *)
Record State : Type := {
  phases : gmap string Z;
  deleted : Z;
  api_calls : list ApiCall;
  log : list LogRecord;
}.

Definition initial : State :=
  {| phases := ∅; deleted := 0; api_calls := []; log := [] |}.

Definition call (c : ApiCall) (st : State) : State :=
  {| phases := phases st; deleted := deleted st;
     api_calls := api_calls st ++ [c]; log := log st |}.

Definition app_log (r : LogRecord) (st : State) : State :=
  {| phases := phases st; deleted := deleted st;
     api_calls := api_calls st; log := log st ++ [r] |}.

(** [phases[phase] += 1] on a [defaultdict(int)]. *)
Definition count_phase (phase : string) (st : State) : State :=
  {| phases := <[phase := default 0 (phases st !! phase) + 1]> (phases st);
     deleted := deleted st; api_calls := api_calls st; log := log st |}.

Definition count_deleted (st : State) : State :=
  {| phases := phases st; deleted := deleted st + 1;
     api_calls := api_calls st; log := log st |}.

(** [datetime.timedelta(seconds=s)], in microseconds.  Points in time and
    durations are integers here; the bounds of [datetime] are not modelled. *)
Definition timedelta_seconds (s : Z) : Z := s * 1000000.

Section Methods.
Variable self : Config.
(** [datetime.datetime.now(tz=utc)] and the answer to the k-th delete call. *)
Variable now : Z.
Variable delete_answer : nat -> option exn.

Definition start_cutoff : Z := now - timedelta_seconds (max_age self).

(** The value of the local [delete] for one build, with the log record that
    goes with it. *)
Definition decide_delete (build : V1Pod) (st : State) : State * bool :=
  let annotations := default [] (metadata_annotations build) in
  let repo := default "unknown" (assoc "binder-repo" annotations) in
  if bool_decide (status_phase build ∈ ["Failed"; "Succeeded"; "Evicted"]) then
    (app_log (info_deleting (status_phase build) (metadata_name build) repo) st, true)
  else
    let started := status_start_time build in
    match started with
    | Some t =>
        if truthy (max_age self) && truthy started && (t <? start_cutoff)
        then (app_log (info_deleting_long_running (metadata_name build) repo) st, true)
        else (st, false)
    | None => (st, false)
    end.

(** One turn of [for build in builds]. *)
Definition visit (build : V1Pod) (st : State) : State * result unit :=
  let st := count_phase (status_phase build) st in
  let '(st, delete) := decide_delete build st in
  if delete then
    let st := count_deleted st in
    let k := length (List.filter is_delete (api_calls st)) in
    let st := call (delete_namespaced_pod (metadata_name build) (namespace self) 0) st in
    match delete_answer k with
    | None => (st, Ok tt)
    | Some (ApiException status) =>
        if status =? 404 then (st, Ok tt) else (st, Raise (ApiException status))
    | Some e => (st, Raise e)
    end
  else (st, Ok tt).

Fixpoint sweep (builds : list V1Pod) (st : State) : State * result unit :=
  match builds with
  | [] => (st, Ok tt)
  | build :: rest =>
      match visit build st with
      | (st, Ok _) => sweep rest st
      | (st, Raise e) => (st, Raise e)
      end
  end.

(** [cleanup()], given the answer to the listing. *)
Definition cleanup (listing : result (list V1Pod)) : State * result unit :=
  let st := call (list_namespaced_pod (namespace self) "component=binderhub-build") initial in
  match listing with
  | Raise e => (st, Raise e)
  | Ok builds =>
      let st := app_log (debug_build_pods (length builds)) st in
      match sweep builds st with
      | (st, Raise e) => (st, Raise e)
      | (st, Ok _) =>
          let st :=
            if truthy (deleted st)
            then app_log (info_deleted (deleted st) (length builds)) st
            else st in
          (app_log (debug_phase_summary (phases st)) st, Ok tt)
      end
  end.

End Methods.

End KubernetesCleaner.

(** ** An executable instance of the library functions

    UTF-8 decoding, the text accepted by [json.loads] and the text produced by
    [json.dumps] (default arguments), on byte values. *)

Module PyModel.

#[local] Open Scope N_scope.

Definition bytes_of (s : string) : list N := map N_of_ascii (list_ascii_of_string s).
Definition string_of (bs : list N) : string := string_of_list_ascii (map ascii_of_N bs).

Definition between (lo hi c : N) : bool := (lo <=? c) && (c <=? hi).
Definition cont (c : N) : bool := between 128 191 c.

(** The code points of a UTF-8 byte sequence; [None] where [bytes.decode]
    raises. *)
Fixpoint code_points (bs : list N) : option (list N) :=
  match bs with
  | [] => Some []
  | b0 :: r0 =>
      if b0 <? 128 then cons b0 <$> code_points r0
      else
        match r0 with
        | [] => None
        | b1 :: r1 =>
            if between 194 223 b0 then
              if cont b1 then cons ((b0 - 192) * 64 + (b1 - 128)) <$> code_points r1 else None
            else
              match r1 with
              | [] => None
              | b2 :: r2 =>
                  if between 224 239 b0 then
                    if (if b0 =? 224 then between 160 191 b1
                        else if b0 =? 237 then between 128 159 b1
                        else cont b1) && cont b2
                    then cons ((b0 - 224) * 4096 + (b1 - 128) * 64 + (b2 - 128)) <$> code_points r2
                    else None
                  else
                    match r2 with
                    | [] => None
                    | b3 :: r3 =>
                        if between 240 244 b0
                           && (if b0 =? 240 then between 144 191 b1
                               else if b0 =? 244 then between 128 143 b1
                               else cont b1)
                           && cont b2 && cont b3
                        then cons ((b0 - 240) * 262144 + (b1 - 128) * 4096
                                   + (b2 - 128) * 64 + (b3 - 128)) <$> code_points r3
                        else None
                    end
              end
        end
  end.

Definition decode_utf8 (b : string) : option string :=
  match code_points (bytes_of b) with
  | Some _ => Some b
  | None => None
  end.

(** *** json.dumps *)

Definition hex_digit (d : N) : N := if d <? 10 then 48 + d else 87 + d.

Definition hex4 (n : N) : list N :=
  [hex_digit (n / 4096 mod 16); hex_digit (n / 256 mod 16);
   hex_digit (n / 16 mod 16); hex_digit (n mod 16)].

Definition escape (c : N) : list N :=
  if c =? 34 then [92; 34]
  else if c =? 92 then [92; 92]
  else if c =? 8 then [92; 98]
  else if c =? 12 then [92; 102]
  else if c =? 10 then [92; 110]
  else if c =? 13 then [92; 114]
  else if c =? 9 then [92; 116]
  else if between 32 126 c then [c]
  else if c <? 65536 then [92; 117] ++ hex4 c
  else
    let n := c - 65536 in
    ([92; 117] ++ hex4 (55296 + n / 1024)) ++ [92; 117] ++ hex4 (56320 + n mod 1024).

(** A quoted string; a byte sequence that is no UTF-8 is escaped byte by
    byte. *)
Definition dumps_str (s : string) : string :=
  let cps := default (bytes_of s) (code_points (bytes_of s)) in
  string_of ([34] ++ concat (map escape cps) ++ [34]).

Fixpoint join (sep : string) (parts : list string) : string :=
  match parts with
  | [] => ""
  | [x] => x
  | x :: rest => x +:+ sep +:+ join sep rest
  end.

Fixpoint json_dumps (j : json) : string :=
  match j with
  | JNull => "null"
  | JBool true => "true"
  | JBool false => "false"
  | JInt z => str_int z
  | JStr s => dumps_str s
  | JList l => "[" +:+ join ", " (map json_dumps l) +:+ "]"
  | JDict kv =>
      "{" +:+ join ", " (map (fun p => dumps_str (fst p) +:+ ": " +:+ json_dumps (snd p)) kv)
      +:+ "}"
  end.

(** *** json.loads *)

Definition is_ws (c : N) : bool := (c =? 32) || (c =? 9) || (c =? 10) || (c =? 13).
Definition is_digit (c : N) : bool := between 48 57 c.
Definition is_hex (c : N) : bool := is_digit c || between 97 102 c || between 65 70 c.

Fixpoint skip_ws (s : list N) : list N :=
  match s with
  | c :: r => if is_ws c then skip_ws r else s
  | [] => []
  end.

Fixpoint skip_digits (s : list N) : list N :=
  match s with
  | c :: r => if is_digit c then skip_digits r else s
  | [] => []
  end.

(** What follows the integer part of a number: an optional fraction (a dot
    and digits) and an optional exponent (e or E, a sign, digits). *)
Definition skip_frac_exp (s : list N) : list N :=
  let s1 :=
    match s with
    | c :: d :: r => if (c =? 46) && is_digit d then skip_digits r else s
    | _ => s
    end in
  match s1 with
  | c :: r =>
      if (c =? 101) || (c =? 69) then
        let r' :=
          match r with
          | sg :: r' => if (sg =? 43) || (sg =? 45) then r' else r
          | [] => r
          end in
        match r' with
        | d :: r'' => if is_digit d then skip_digits r'' else s1
        | [] => s1
        end
      else s1
  | [] => s1
  end.

(** An optional minus sign, then 0 or a digit string that does not start
    with 0, and what follows. *)
Definition scan_number (s : list N) : option (list N) :=
  let s1 := match s with c :: r => if c =? 45 then r else s | [] => s end in
  match s1 with
  | c :: r =>
      if c =? 48 then Some (skip_frac_exp r)
      else if between 49 57 c then Some (skip_frac_exp (skip_digits r))
      else None
  | [] => None
  end.

Fixpoint strip_prefix (p s : list N) : option (list N) :=
  match p, s with
  | [], _ => Some s
  | a :: p', b :: s' => if a =? b then strip_prefix p' s' else None
  | _ :: _, [] => None
  end.

(** A string body, after the opening quote. *)
Fixpoint scan_string (s : list N) : option (list N) :=
  match s with
  | [] => None
  | c :: r =>
      if c =? 34 then Some r
      else if c =? 92 then
        match r with
        | e :: r' =>
            if existsb (N.eqb e) [34; 92; 47; 98; 102; 110; 114; 116] then scan_string r'
            else if e =? 117 then
              match r' with
              | h1 :: h2 :: h3 :: h4 :: r'' =>
                  if is_hex h1 && is_hex h2 && is_hex h3 && is_hex h4
                  then scan_string r'' else None
              | _ => None
              end
            else None
        | [] => None
        end
      else if c <? 32 then None
      else scan_string r
  end.

Inductive mode : Type := Value | Elements | Members.

(** The rest of the text after one value (or after the elements of an array,
    the members of an object, up to the closing bracket). *)
Fixpoint scan (fuel : nat) (m : mode) (s : list N) : option (list N) :=
  match fuel with
  | O => None
  | S fuel =>
      match m with
      | Value =>
          match s with
          | [] => None
          | c :: r =>
              if c =? 34 then scan_string r
              else if c =? 123 then
                match skip_ws r with
                | c' :: r' => if c' =? 125 then Some r' else scan fuel Members (c' :: r')
                | [] => None
                end
              else if c =? 91 then
                match skip_ws r with
                | c' :: r' => if c' =? 93 then Some r' else scan fuel Elements (c' :: r')
                | [] => None
                end
              else if c =? 110 then strip_prefix (bytes_of "null") s
              else if c =? 116 then strip_prefix (bytes_of "true") s
              else if c =? 102 then strip_prefix (bytes_of "false") s
              else if c =? 78 then strip_prefix (bytes_of "NaN") s
              else if c =? 73 then strip_prefix (bytes_of "Infinity") s
              else
                match strip_prefix (bytes_of "-Infinity") s with
                | Some r' => Some r'
                | None => scan_number s
                end
          end
      | Elements =>
          match scan fuel Value s with
          | None => None
          | Some r =>
              match skip_ws r with
              | c :: r' =>
                  if c =? 44 then scan fuel Elements (skip_ws r')
                  else if c =? 93 then Some r'
                  else None
              | [] => None
              end
          end
      | Members =>
          match s with
          | c :: r =>
              if c =? 34 then
                match scan_string r with
                | None => None
                | Some r1 =>
                    match skip_ws r1 with
                    | c1 :: r2 =>
                        if c1 =? 58 then
                          match scan fuel Value (skip_ws r2) with
                          | None => None
                          | Some r3 =>
                              match skip_ws r3 with
                              | c3 :: r4 =>
                                  if c3 =? 44 then scan fuel Members (skip_ws r4)
                                  else if c3 =? 125 then Some r4
                                  else None
                              | [] => None
                              end
                          end
                        else None
                    | [] => None
                    end
                end
              else None
          | [] => None
          end
      end
  end.

Definition json_loads_ok (s : string) : bool :=
  let bs := bytes_of s in
  match scan (2 * length bs + 2) Value (skip_ws bs) with
  | Some r => match skip_ws r with [] => true | _ :: _ => false end
  | None => false
  end.

End PyModel.

#[global] Instance py_model : PyLib := {|
  Py.decode_utf8 := PyModel.decode_utf8;
  Py.json_loads_ok := PyModel.json_loads_ok;
  Py.json_dumps := PyModel.json_dumps
|}.

(** ** The rules of pushing, of log forwarding and of the cleaner, in the
    words of their description *)

Module Rule.

(** Push credentials are configured when there is a static [push_secret] or
    there are dynamic [registry_credentials], which are "used instead of
    push_secret" (help text of the trait). *)
Definition push_credentials_configured (self : BuildExecutor.Config) : bool :=
  truthy (BuildExecutor.push_secret self)
  || truthy (BuildExecutor.registry_credentials self).

(** The event that forwards a log line: the line as it is when it parses as
    JSON, else the JSON object with phase "unknown" whose message is the
    line. *)
Definition forwarded {lib : PyLib} (line : string) : ProgressEvent.t :=
  ProgressEvent LOG_MESSAGE
    (Text (if json_loads_ok line then line
           else json_dumps (JDict [("phase", JStr "unknown"); ("message", JStr line)]))).

Definition finished_phases : list string := ["Failed"; "Succeeded"; "Evicted"].

(** A build pod is to be deleted when its phase is one of the finished phases,
    or else when a non-zero [max_age] is configured, the pod has a start time
    and that start time is older than [now - max_age]. *)
Definition deletion_rule (self : KubernetesCleaner.Config) (now : Z) (build : V1Pod) : Prop :=
  status_phase build ∈ finished_phases
  ∨ ((status_phase build ∉ finished_phases)
     ∧ KubernetesCleaner.max_age self ≠ 0
     ∧ ∃ t, status_start_time build = Some t
            ∧ t < now - KubernetesCleaner.timedelta_seconds (KubernetesCleaner.max_age self)).

#[global] Instance deletion_rule_dec self now build :
  Decision (deletion_rule self now build).
Proof.
  unfold deletion_rule. destruct (status_start_time build) as [t |].
  - destruct (decide (status_phase build ∈ finished_phases
                      ∨ ((status_phase build ∉ finished_phases)
                         ∧ KubernetesCleaner.max_age self ≠ 0
                         ∧ t < now - KubernetesCleaner.timedelta_seconds
                                        (KubernetesCleaner.max_age self))))
      as [H | H]; [left | right].
    + destruct H as [H | (H1 & H2 & H3)]; [by left | right; eauto].
    + intros [H' | (H1 & H2 & t' & Heq & Hlt)]; apply H; [by left |].
      right. injection Heq as <-. auto.
  - destruct (decide (status_phase build ∈ finished_phases)) as [H | H]; [left | right].
    + by left.
    + intros [H' | (_ & _ & t' & Heq & _)]; [done | discriminate Heq].
Defined.


End Rule.

(** ** Sample configurations, pods and cluster behaviours *)

Module Sample.

Definition build : BuildExecutor.Config :=
  {| BuildExecutor.name := "build-org-2drepo-0123ab";
     BuildExecutor.repo_url := "https://github.com/org/repo";
     BuildExecutor.ref := "0123abcd";
     BuildExecutor.image_name := "registry.example.org/org-repo:0123abcd";
     BuildExecutor.git_credentials := "";
     BuildExecutor.push_secret := "binder-build-docker-config";
     BuildExecutor.registry_credentials := [];
     BuildExecutor.memory_limit := 4294967296;
     BuildExecutor.appendix := "";
     BuildExecutor.repo2docker_extra_args := [] |}.

(** Dynamic registry credentials and no static push secret. *)
Definition build_dynamic_credentials : BuildExecutor.Config :=
  {| BuildExecutor.name := "build-org-2drepo-0123ab";
     BuildExecutor.repo_url := "https://github.com/org/repo";
     BuildExecutor.ref := "0123abcd";
     BuildExecutor.image_name := "registry.example.org/org-repo:0123abcd";
     BuildExecutor.git_credentials := "";
     BuildExecutor.push_secret := "";
     BuildExecutor.registry_credentials :=
       [("registry", "docker.io"); ("username", "user"); ("password", "password")];
     BuildExecutor.memory_limit := 0;
     BuildExecutor.appendix := "";
     BuildExecutor.repo2docker_extra_args := [] |}.

Definition executor (sticky : bool) : KubernetesBuildExecutor.Config :=
  {| KubernetesBuildExecutor.base := build;
     KubernetesBuildExecutor.namespace := "default";
     KubernetesBuildExecutor.build_image := "quay.io/jupyterhub/repo2docker:2024.07.0";
     KubernetesBuildExecutor.image_pull_secrets := [];
     KubernetesBuildExecutor.docker_host := Some "/var/run/docker.sock";
     KubernetesBuildExecutor.cpu_request := "";
     KubernetesBuildExecutor.memory_request := 0;
     KubernetesBuildExecutor.node_selector := [];
     KubernetesBuildExecutor.extra_envs := [];
     KubernetesBuildExecutor.log_tail_lines := 100;
     KubernetesBuildExecutor.sticky_builds := sticky |}.

(** The build pod as the cluster reports it in a given phase. *)
Definition reported (phase : string) : V1Pod :=
  {| metadata_name := "build-org-2drepo-0123ab";
     metadata_labels := [("name", "build-org-2drepo-0123ab"); ("component", "binderhub-build")];
     metadata_annotations := Some [("binder-repo", "https://github.com/org/repo")];
     spec := None;
     status_phase := phase;
     status_start_time := Some 1700000000000000 |}.

Definition event (type phase : string) : Incoming WatchEvent :=
  Item {| type := type; object := reported phase |}.

(** A pod listing with the given items, as [json.loads] returns it. *)
Definition pod_list (items : list json) : json :=
  JDict [("kind", JStr "PodList"); ("apiVersion", JStr "v1");
         ("metadata", JDict [("resourceVersion", JStr "1")]);
         ("items", JList items)].

Definition builder_pod_on (node : string) : json :=
  JDict [("metadata", JDict [("name", JStr ("binder-dind-" +:+ node))]);
         ("spec", JDict [("nodeName", JStr node)])].

(** A cluster on which every call returns, with the given image-builder
    listing, watch streams and log lines. *)
Definition cluster (listing : json) (streams : list (list (Incoming WatchEvent)))
    (lines : list (Incoming string)) : KubernetesBuildExecutor.Cluster :=
  {| KubernetesBuildExecutor.image_builder_pods := Ok listing;
     KubernetesBuildExecutor.create_answer := None;
     KubernetesBuildExecutor.delete_answer := fun _ => None;
     KubernetesBuildExecutor.watch_streams :=
       map (fun arriving => {| items := arriving; ending := None |}) streams;
     KubernetesBuildExecutor.pod_log := Ok {| items := lines; ending := None |} |}.

(** The same cluster with other answers to the create and delete calls. *)
Definition answering (create : option exn) (delete : nat -> option exn)
    (c : KubernetesBuildExecutor.Cluster) : KubernetesBuildExecutor.Cluster :=
  {| KubernetesBuildExecutor.image_builder_pods := KubernetesBuildExecutor.image_builder_pods c;
     KubernetesBuildExecutor.create_answer := create;
     KubernetesBuildExecutor.delete_answer := delete;
     KubernetesBuildExecutor.watch_streams := KubernetesBuildExecutor.watch_streams c;
     KubernetesBuildExecutor.pod_log := KubernetesBuildExecutor.pod_log c |}.

(** Every call is answered with the given status. *)
Definition always (status : Z) : nat -> option exn := fun _ => Some (ApiException status).


(** A hash for the examples: the length of the node name plus that of the
    key. *)
Definition hash (bucket : json) (key : string) : Z :=
  match bucket with
  | JStr s => Z.of_nat (String.length s + String.length key)
  | _ => 0
  end.

Definition urlparse_path (url : string) : string := url.

Definition cleaner (max_age : Z) : KubernetesCleaner.Config :=
  {| KubernetesCleaner.namespace := "default"; KubernetesCleaner.max_age := max_age |}.

(** A build pod in a given phase, started at the given time (in seconds). *)
Definition build_pod (name phase : string) (started : Z) : V1Pod :=
  {| metadata_name := name;
     metadata_labels := [("name", name); ("component", "binderhub-build")];
     metadata_annotations := Some [("binder-repo", "https://github.com/org/repo")];
     spec := None;
     status_phase := phase;
     status_start_time := Some (started * 1000000) |}.

End Sample.

(** ** FakeBuild *)

Module FakeBuild.

(** [progress] is handed a member of [ProgressEvent.Kind] or, in places, the
    plain string "log". *)
Inductive EventKind : Type :=
| member (k : Kind)
| plain (s : string).

Record Event : Type := { kind : EventKind; payload : Payload }.

Definition is_status_change (e : Event) : bool :=
  match kind e with
  | member BUILD_STATUS_CHANGE => true
  | _ => false
  end.

Definition newline : string := String (ascii_of_nat 10) "".

Section Methods.
Context {lib : PyLib}.
(** [stop()] is called by another thread just before the check of this
    index ([None]: it is not called while the method runs); the checks of
    [stop_event] are numbered from 0 in the order they are made. *)
Variable stop_before : option nat.

Definition is_set (check : nat) : bool :=
  match stop_before with
  | Some k => bool_decide (k ≤ check)%nat
  | None => false
  end.

Definition submit (q : list Event) : list Event :=
  q ++ [{| kind := member BUILD_STATUS_CHANGE; payload := Status RUNNING |}].

(** [for phase in (...)]: the queue, and whether the method returned. *)
Fixpoint phase_messages (check : nat) (phases : list string) (q : list Event)
  : list Event * bool :=
  match phases with
  | [] => (q, false)
  | phase :: rest =>
      if is_set check then (q, true)
      else
        phase_messages (S check) rest
          (q ++ [{| kind := member LOG_MESSAGE;
                    payload :=
                      Text (json_dumps
                              (JDict [("phase", JStr phase);
                                      ("message", JStr (phase +:+ "..." +:+ newline))])) |}])
  end.

(** [for i in range(5)], from [i] on. *)
Fixpoint step_messages (check : nat) (i : nat) (steps : nat) (q : list Event)
  : list Event * bool :=
  match steps with
  | O => (q, false)
  | S steps' =>
      if is_set check then (q, true)
      else
        step_messages (S check) (S i) steps'
          (q ++ [{| kind := plain "log";
                    payload :=
                      Text (json_dumps
                              (JDict [("phase", JStr "unknown");
                                      ("message",
                                       JStr ("Step " +:+ str_int (Z.of_nat i + 1)
                                             +:+ "/10" +:+ newline))])) |}])
  end.

Definition stream_logs (q : list Event) : list Event :=
  match phase_messages 0 ["Pending"; "Running"; "Succeed"; "Building"] q with
  | (q, true) => q
  | (q, false) =>
      match step_messages 4 0 5 q with
      | (q, true) => q
      | (q, false) =>
          let q := q ++ [{| kind := member BUILD_STATUS_CHANGE; payload := Status BUILT |}] in
          q ++ [{| kind := plain "log";
                   payload :=
                     Text (json_dumps
                             (JDict [("phase", JStr "Deleted");
                                     ("message", JStr ("Deleted..." +:+ newline))])) |}]
      end
  end.

End Methods.

End FakeBuild.

(** ** Readings of the manifest and of the watch loop *)

Module Reading.

Definition volume_name (v : V1Volume) : string :=
  match v with
  | host_path_volume name _ _ => name
  | secret_volume name _ => name
  end.

(** The status a phase is reported as when it arrives on an event that is not
    a deletion; [None] for [Succeeded] and for the phases that only warn. *)
Definition status_of_phase (phase : string) : option BuildStatus :=
  if String.eqb phase "Pending" then Some PENDING
  else if String.eqb phase "Running" then Some RUNNING
  else if String.eqb phase "Succeeded" then None
  else if String.eqb phase "Failed" then Some FAILED
  else if String.eqb phase "Unknown" then Some UNKNOWN
  else None.

(** The events that are not deletions. *)
Definition not_deletion (f : WatchEvent) : Prop := type f ≠ "DELETED".

(** The events after which [cleanup] is called. *)
Definition finished (f : WatchEvent) : Prop :=
  status_phase (object f) = "Succeeded" ∨ status_phase (object f) = "Failed".

#[global] Instance finished_dec f : Decision (finished f).
Proof. unfold finished. apply _. Defined.

(** The events that have arrived, without the calls of [stop()]. *)
Fixpoint received {A} (arriving : list (Incoming A)) : list A :=
  match arriving with
  | [] => []
  | Item a :: rest => a :: received rest
  | StopCalled :: rest => received rest
  end.

Definition is_built (e : ProgressEvent.t) : bool :=
  match ProgressEvent.kind e, ProgressEvent.payload e with
  | BUILD_STATUS_CHANGE, Status BUILT => true
  | _, _ => false
  end.

(** An answer to a delete call that lets the caller go on: the call returned,
    or it failed with status 404. *)
Definition tolerated (answer : option exn) : Prop :=
  answer = None ∨ answer = Some (ApiException 404).

Definition is_log (e : ProgressEvent.t) : bool :=
  match ProgressEvent.kind e with
  | LOG_MESSAGE => true
  | BUILD_STATUS_CHANGE => false
  end.

End Reading.

(** * Properties *)

Module BE := BuildExecutor.
Module KBE := KubernetesBuildExecutor.
Module KC := KubernetesCleaner.


(** ** The repo2docker command line *)

Lemma truthy_str_spec (s : string) : truthy s = true ↔ s ≠ "".
Proof. destruct s; unfold truthy, truthy_str; split; congruence. Qed.

Lemma truthy_int_spec (z : Z) : truthy z = true ↔ z ≠ 0.
Proof.
  unfold truthy, truthy_int. destruct (Z.eqb_spec z 0); simpl; split; congruence.
Qed.

Lemma push_secret_gives_push_flag (self : BE.Config) :
  BE.push_secret self ≠ "" → "--push" ∈ BE.get_cmd self.
Proof.
  intros Hp. apply truthy_str_spec in Hp.
  unfold BE.get_cmd, BE.get_r2d_cmd_options. rewrite Hp.
  destruct (truthy (BE.appendix self)), (truthy (BE.memory_limit self));
    rewrite !elem_of_app; rewrite !list_elem_of_singleton; tauto.
Qed.

Lemma memory_limit_gives_flag (self : BE.Config) :
  BE.memory_limit self ≠ 0 →
  ∃ before after,
    BE.get_cmd self
    = before ++ ["--build-memory-limit"; str_int (BE.memory_limit self)] ++ after.
Proof.
  intros Hm. apply truthy_int_spec in Hm.
  unfold BE.get_cmd, BE.get_r2d_cmd_options. rewrite Hm.
  set (opts := if truthy (BE.push_secret self) then _ else _).
  exists ("jupyter-repo2docker" :: opts),
         (BE.repo2docker_extra_args self ++ [BE.repo_url self]).
  simpl. f_equal.
  repeat rewrite <- (app_assoc opts).
  repeat rewrite <- (app_assoc [_]).
  reflexivity.
Qed.

Theorem push_flag_missing_with_registry_credentials :
  Rule.push_credentials_configured Sample.build_dynamic_credentials = true
  ∧ BE.get_cmd Sample.build_dynamic_credentials
    = ["jupyter-repo2docker"; "--ref=0123abcd";
       "--image=registry.example.org/org-repo:0123abcd";
       "--no-clean"; "--no-run"; "--json-logs"; "--user-name=jovyan";
       "--user-id=1000"; "https://github.com/org/repo"]
  ∧ "--push" ∉ BE.get_cmd Sample.build_dynamic_credentials.
Proof.
  split; [reflexivity |]. split; [reflexivity |].
  intros Hin. vm_compute in Hin.
  repeat (apply elem_of_cons in Hin as [Hin | Hin]; [discriminate Hin |]).
  by apply elem_of_nil in Hin.
Qed.
(** ** Node affinity *)

Lemma insert_by_score_length {B} (hash : B → string → Z) key b ranked :
  length (Utils.insert_by_score hash key b ranked) = S (length ranked).
Proof.
  induction ranked as [| b' rest IH]; simpl; [reflexivity |].
  destruct (hash b' key <=? hash b key); simpl; [reflexivity | by rewrite IH].
Qed.

(** The ranking keeps every candidate. *)
Lemma rendezvous_rank_length {B} (hash : B → string → Z) buckets key :
  length (Utils.rendezvous_rank hash buckets key) = length buckets.
Proof.
  induction buckets as [| b rest IH]; simpl; [reflexivity |].
  unfold Utils.rendezvous_rank in *. simpl.
  by rewrite insert_by_score_length, IH.
Qed.

(** Without sticky builds the term is the pod anti-affinity term. *)
Lemma get_affinity_not_sticky hash self cluster listing st :
  KBE.sticky_builds self = false →
  KBE.image_builder_pods cluster = Ok listing →
  snd (KBE.get_affinity hash self cluster st)
  = Ok (pod_anti_affinity_preferred 100 "kubernetes.io/hostname"
          [("component", "binderhub-build")]).
Proof.
  intros Hs Hl. unfold KBE.get_affinity. rewrite Hl, Hs. reflexivity.
Qed.

(** With sticky builds and image-builder pods that all sit on a node, the
    term pins to the first node of the ranking. *)
Lemma get_affinity_sticky hash self cluster listing items node_names st :
  KBE.sticky_builds self = true →
  KBE.image_builder_pods cluster = Ok (JDict listing) →
  listing ≠ [] →
  assoc "items" listing = Some (JList items) →
  mapM (fun pod => bind (getitem pod "spec") (fun spec => getitem spec "nodeName")) items
  = Ok node_names →
  node_names ≠ [] →
  ∃ best,
    first (Utils.rendezvous_rank hash node_names (KBE.repo_url self)) = Ok best
    ∧ snd (KBE.get_affinity hash self cluster st)
      = Ok (node_affinity_preferred 100 "kubernetes.io/hostname" "In" [best]).
Proof.
  intros Hs Hl Hne Hitems Hnames Hnodes.
  pose proof (rendezvous_rank_length hash node_names (KBE.repo_url self)) as Hlen.
  destruct (Utils.rendezvous_rank hash node_names (KBE.repo_url self)) as [| best rest] eqn:Hr.
  { destruct node_names; [done | discriminate Hlen]. }
  exists best. split; [reflexivity |].
  unfold KBE.get_affinity. rewrite Hl, Hs.
  destruct listing as [| kv listing']; [done |].
  cbn [andb truthy truthy_json truthy_list snd].
  unfold getitem at 1. rewrite Hitems. cbn [bind iterate].
  rewrite Hnames. cbn [bind]. rewrite Hr. reflexivity.
Qed.

(** C9, with sticky builds enabled and no image-builder pod listed: the
    listing is a non-empty document, so the sticky branch is taken, the
    ranking of no node is empty, and taking its first element raises
    [IndexError]; no affinity term is returned. *)
Theorem get_affinity_sticky_without_builder_pods (hash : json → string → Z) (st : KBE.State) :
  KBE.get_affinity hash (Sample.executor true)
    (Sample.cluster (Sample.pod_list []) [] []) st
  = (KBE.call (list_namespaced_pod "default" "component=image-builder,app=binder") st,
     Raise IndexError).
Proof. reflexivity. Qed.

(** ** The watch loop *)

(** C1, on a pod that is reported [Failed] and then deleted: [submit] returns
    after putting two terminal events on the queue, one for the [Failed]
    phase and one for the deletion. *)
Theorem failed_then_deleted_emits_two_terminal_events
    (lib : PyLib) (hash : json → string → Z) (urlparse_path : string → string) :
  ∃ st',
    KBE.submit hash urlparse_path (Sample.executor false)
      (Sample.cluster (Sample.pod_list [])
         [[Sample.event "MODIFIED" "Failed"; Sample.event "DELETED" "Failed"]] [])
      KBE.initial
    = (st', KBE.Returned)
    ∧ KBE.q st'
      = [ProgressEvent BUILD_STATUS_CHANGE (Status FAILED);
         ProgressEvent BUILD_STATUS_CHANGE (Status FAILED)]
    ∧ length (ProgressEvent.terminal_events (KBE.q st')) = 2%nat.
Proof.
  eexists. split; [reflexivity |]. split; reflexivity.
Qed.
Section Executor.
Context {lib : PyLib}.
Variable hash : json → string → Z.
Variable urlparse_path : string → string.
Variable self : KBE.Config.
Variable cluster : KBE.Cluster.

Abbreviation cleanup := (KBE.cleanup self cluster).
Abbreviation handle_event := (KBE.handle_event self cluster).
Abbreviation watch_events := (KBE.watch_events self cluster).
Abbreviation watch_loop := (KBE.watch_loop self cluster).
Abbreviation submit := (KBE.submit hash urlparse_path self cluster).
Abbreviation stream_logs := (KBE.stream_logs self cluster).
Abbreviation watch_call :=
  (watch_namespaced_pod (KBE.namespace self) ("name=" +:+ KBE.name self) 30).
Abbreviation delete_call :=
  (delete_namespaced_pod (KBE.name self) (KBE.namespace self) 0).

(** *** What each step does to the state *)

Lemma q_progress kind payload (st : KBE.State) :
  KBE.q (KBE.progress kind payload st) = KBE.q st ++ [ProgressEvent kind payload].
Proof. reflexivity. Qed.

Lemma cleanup_state st :
  fst (cleanup st) = KBE.call delete_call st.
Proof.
  unfold KBE.cleanup.
  destruct (KBE.delete_answer cluster _) as [[status | | | | |] |]; try reflexivity.
  destruct (status =? 404); reflexivity.
Qed.

Lemma dispatch_phase_state phase st :
  KBE.api_calls (KBE.dispatch_phase phase st) = KBE.api_calls st
  ∧ KBE.stop_event (KBE.dispatch_phase phase st) = KBE.stop_event st
  ∧ KBE.pod (KBE.dispatch_phase phase st) = KBE.pod st.
Proof.
  unfold KBE.dispatch_phase.
  repeat match goal with |- context [if ?b then _ else _] => destruct b end;
    repeat split; reflexivity.
Qed.

(** An event leaves the stop event alone and adds at most one call, a delete
    call. *)
Lemma handle_event_state f st :
  KBE.stop_event (fst (handle_event f st)) = KBE.stop_event st
  ∧ (KBE.api_calls (fst (handle_event f st)) = KBE.api_calls st
     ∨ KBE.api_calls (fst (handle_event f st)) = KBE.api_calls st ++ [delete_call]).
Proof.
  unfold KBE.handle_event.
  destruct (String.eqb (type f) "DELETED").
  { destruct (String.eqb _ "Succeeded"); simpl; auto. }
  set (st1 := if negb _ then _ else _).
  assert (KBE.stop_event st1 = KBE.stop_event st ∧ KBE.api_calls st1 = KBE.api_calls st)
    as [Hs Hc].
  { subst st1. destruct (negb _); [| by split].
    destruct (dispatch_phase_state (status_phase (object f)) (KBE.set_pod (object f) st))
      as (-> & -> & _). by split. }
  pose proof (cleanup_state st1) as Hcl.
  destruct (String.eqb _ "Succeeded");
    [| destruct (String.eqb _ "Failed")];
    try (destruct (cleanup st1) as [st2 [[] | e]]; simpl in *; subst st2;
         rewrite <- Hs, <- Hc; auto);
    simpl; auto.
Qed.

Lemma watch_events_app before after st :
  watch_events (before ++ after) st
  = match watch_events before st with
    | (st', Some o) => (st', Some o)
    | (st', None) => watch_events after st'
    end.
Proof.
  revert st. induction before as [| [f |] before IH]; intros st; simpl.
  - reflexivity.
  - destruct (handle_event f st) as [st1 [o |]]; [reflexivity | apply IH].
  - apply IH.
Qed.

Lemma stop_kept_watch_events arriving st :
  KBE.stop_event st = true → KBE.stop_event (fst (watch_events arriving st)) = true.
Proof.
  revert st. induction arriving as [| [f |] arriving IH]; intros st Hst; simpl.
  - exact Hst.
  - pose proof (handle_event_state f st) as [Hs _].
    destruct (handle_event f st) as [st1 [o |]]; simpl in *.
    + congruence.
    + apply IH. congruence.
  - apply IH. reflexivity.
Qed.

Lemma creates_kept_watch_events arriving st :
  List.filter is_create (KBE.api_calls (fst (watch_events arriving st)))
  = List.filter is_create (KBE.api_calls st).
Proof.
  revert st. induction arriving as [| [f |] arriving IH]; intros st; simpl.
  - reflexivity.
  - pose proof (handle_event_state f st) as [_ Hc].
    assert (List.filter is_create (KBE.api_calls (fst (handle_event f st)))
            = List.filter is_create (KBE.api_calls st)) as Hf.
    { destruct Hc as [-> | ->]; [reflexivity |].
      rewrite List.filter_app. simpl. apply app_nil_r. }
    destruct (handle_event f st) as [st1 [o |]]; simpl in *.
    + exact Hf.
    + rewrite IH. exact Hf.
  - rewrite IH. reflexivity.
Qed.

Lemma creates_kept_watch_loop streams st :
  List.filter is_create (KBE.api_calls (fst (watch_loop streams st)))
  = List.filter is_create (KBE.api_calls st).
Proof.
  revert st. induction streams as [| w streams IH]; intros st; simpl.
  - destruct (KBE.stop_event st); reflexivity.
  - destruct (KBE.stop_event st); [reflexivity |].
    pose proof (creates_kept_watch_events (items w) (KBE.call watch_call st)) as Hc.
    assert (List.filter is_create (KBE.api_calls (KBE.call watch_call st))
            = List.filter is_create (KBE.api_calls st)) as Hw.
    { simpl. rewrite List.filter_app. simpl. apply app_nil_r. }
    destruct (watch_events (items w) (KBE.call watch_call st)) as [st1 [o |]]; simpl in *.
    + congruence.
    + destruct (ending w); simpl; [congruence |].
      destruct (KBE.stop_event st1); simpl; [congruence |].
      rewrite IH. congruence.
Qed.

(** *** Deletion events *)

(** A deletion event is handled the same way whether or not the stop event is
    set. *)
Lemma deleted_event_is_terminal f st :
  type f = "DELETED" →
  handle_event f st
  = (KBE.progress BUILD_STATUS_CHANGE
       (Status (if decide (status_phase (object f) = "Succeeded") then BUILT else FAILED))
       st,
     Some KBE.Returned).
Proof.
  intros Htype. unfold KBE.handle_event. rewrite Htype. simpl.
  destruct (String.eqb_spec (status_phase (object f)) "Succeeded") as [Heq | Hne].
  - rewrite decide_True by exact Heq. reflexivity.
  - rewrite decide_False by exact Hne. reflexivity.
Qed.

(** C2.  When the watch loop reaches a deletion event (the events before it
    on the stream did not end the method), it emits the terminal event for
    the phase the deleted pod was last seen in, [BUILT] for [Succeeded] and
    [FAILED] for anything else, and [submit] returns: what arrives later is
    not looked at and no further watch is started. *)
Theorem deletion_event_ends_watch w streams before f after st st' :
  KBE.stop_event st = false →
  items w = before ++ Item f :: after →
  type f = "DELETED" →
  watch_events before (KBE.call watch_call st) = (st', None) →
  watch_loop (w :: streams) st
  = (KBE.progress BUILD_STATUS_CHANGE
       (Status (if decide (status_phase (object f) = "Succeeded") then BUILT else FAILED))
       st',
     KBE.Returned).
Proof.
  intros Hstop Hitems Htype Hbefore. simpl. rewrite Hstop, Hitems.
  rewrite watch_events_app, Hbefore.
  cbn [KBE.watch_events]. by rewrite deleted_event_is_terminal.
Qed.

(** *** Pod creation *)

(** C3.  [submit] sends at most one create call.  The pod manifest is built
    first, and building it asks [get_affinity]: when that raises, [submit]
    raises the same exception and no create call is sent.  When it returns,
    exactly one create call is sent, for the pod built with that affinity;
    when the call returns or fails with status 409 the executor goes on to
    watch the pod; any other exception leaves [submit] at once, before any
    watch is started and with nothing put on the queue. *)
Theorem submit_creates_at_most_once st :
  let created s := List.filter is_create (KBE.api_calls s) in
  (length (created (fst (submit st))) ≤ S (length (created st)))%nat
  ∧ (∀ st1 e,
       KBE.get_affinity hash self cluster st = (st1, Raise e) →
       submit st = (st1, KBE.Raised e) ∧ created st1 = created st)
  ∧ (∀ st1 affinity,
       KBE.get_affinity hash self cluster st = (st1, Ok affinity) →
       let pod := KBE.build_pod urlparse_path self affinity in
       let st2 :=
         KBE.call (create_namespaced_pod (KBE.namespace self) pod) (KBE.set_pod pod st1) in
       created (fst (submit st))
       = created st ++ [create_namespaced_pod (KBE.namespace self) pod]
       ∧ (KBE.create_answer cluster = None ∨ KBE.create_answer cluster = Some (ApiException 409) →
          submit st = watch_loop (KBE.watch_streams cluster) st2)
       ∧ (∀ e, KBE.create_answer cluster = Some e → e ≠ ApiException 409 →
          submit st = (st2, KBE.Raised e)
          ∧ List.filter is_watch (KBE.api_calls st2) = List.filter is_watch (KBE.api_calls st)
          ∧ KBE.q st2 = KBE.q st)).
Proof.
  intros created.
  assert (∀ st1 r, KBE.get_affinity hash self cluster st = (st1, r) →
          KBE.api_calls st1
          = KBE.api_calls st
            ++ [list_namespaced_pod (KBE.namespace self) "component=image-builder,app=binder"]
          ∧ KBE.q st1 = KBE.q st) as Hlisting.
  { intros st1 r Haff. unfold KBE.get_affinity in Haff.
    destruct (KBE.image_builder_pods cluster); [| injection Haff as <- _; by split].
    destruct (_ && _); injection Haff as <- _; by split. }
  assert (∀ st1 e, KBE.get_affinity hash self cluster st = (st1, Raise e) →
          submit st = (st1, KBE.Raised e) ∧ created st1 = created st) as Hraise.
  { intros st1 e Haff. destruct (Hlisting _ _ Haff) as [Hcalls _].
    split.
    - unfold KBE.submit. by rewrite Haff.
    - unfold created. rewrite Hcalls, List.filter_app. simpl. by rewrite app_nil_r. }
  assert (∀ st1 affinity, KBE.get_affinity hash self cluster st = (st1, Ok affinity) →
          let pod := KBE.build_pod urlparse_path self affinity in
          let st2 :=
            KBE.call (create_namespaced_pod (KBE.namespace self) pod) (KBE.set_pod pod st1) in
          created st2 = created st ++ [create_namespaced_pod (KBE.namespace self) pod]
          ∧ submit st
            = match KBE.create_answer cluster with
              | Some (ApiException status) =>
                  if status =? 409 then watch_loop (KBE.watch_streams cluster) st2
                  else (st2, KBE.Raised (ApiException status))
              | Some e => (st2, KBE.Raised e)
              | None => watch_loop (KBE.watch_streams cluster) st2
              end) as Hok.
  { intros st1 affinity Haff pod st2. destruct (Hlisting _ _ Haff) as [Hcalls _].
    split.
    - subst st2. unfold created. simpl. rewrite Hcalls, !List.filter_app. simpl.
      by rewrite app_nil_r.
    - unfold KBE.submit. rewrite Haff. reflexivity. }
  assert (∀ st1 affinity, KBE.get_affinity hash self cluster st = (st1, Ok affinity) →
          created (fst (submit st))
          = created st
            ++ [create_namespaced_pod (KBE.namespace self)
                  (KBE.build_pod urlparse_path self affinity)]) as Hone.
  { intros st1 affinity Haff. destruct (Hok _ _ Haff) as [Hst2 Hsubmit].
    rewrite Hsubmit. unfold created in *.
    destruct (KBE.create_answer cluster) as [[status | | | | |] |]; simpl;
      try exact Hst2; try (rewrite creates_kept_watch_loop; exact Hst2).
    destruct (status =? 409); simpl; [rewrite creates_kept_watch_loop |]; exact Hst2. }
  split; [| split].
  - destruct (KBE.get_affinity hash self cluster st) as [st1 [affinity | e]] eqn:Haff.
    + rewrite (Hone _ _ eq_refl), length_app. simpl. lia.
    + destruct (Hraise _ _ eq_refl) as [Hsubmit Hcreated].
      rewrite Hsubmit. cbn [fst]. rewrite Hcreated. lia.
  - exact Hraise.
  - intros st1 affinity Haff pod st2.
    destruct (Hlisting _ _ Haff) as [Hcalls Hq].
    destruct (Hok _ _ Haff) as [_ Hsubmit]. fold pod st2 in Hsubmit.
    split; [exact (Hone _ _ Haff) | split].
    + intros [Hnone | Hconflict]; rewrite Hsubmit.
      * rewrite Hnone. reflexivity.
      * rewrite Hconflict. reflexivity.
    + intros e He Hne. rewrite Hsubmit, He. split; [| split].
      * destruct e as [status | | | | |]; try reflexivity.
        destruct (Z.eqb_spec status 409) as [-> | _]; [done | reflexivity].
      * subst st2. simpl. rewrite Hcalls, !List.filter_app. simpl.
        by rewrite !app_nil_r.
      * exact Hq.
Qed.

(** *** Cleanup *)

(** C4.  [cleanup] sends one delete call, with grace period zero.  It returns
    normally when the call returns and when the call fails with status 404;
    any other exception propagates.  A second [cleanup] that is answered with
    404 returns normally, whatever the first one did. *)
Theorem cleanup_tolerates_not_found st :
  let k := length (List.filter is_delete (KBE.api_calls st)) in
  KBE.api_calls (fst (cleanup st)) = KBE.api_calls st ++ [delete_call]
  ∧ (KBE.delete_answer cluster k = None → snd (cleanup st) = Ok tt)
  ∧ (KBE.delete_answer cluster k = Some (ApiException 404) → snd (cleanup st) = Ok tt)
  ∧ (∀ e, KBE.delete_answer cluster k = Some e → e ≠ ApiException 404 →
     snd (cleanup st) = Raise e)
  ∧ (KBE.delete_answer cluster (S k) = Some (ApiException 404) →
     snd (cleanup (fst (cleanup st))) = Ok tt).
Proof.
  intros k. split; [by rewrite cleanup_state |].
  split; [| split; [| split]].
  - intros Ha. unfold KBE.cleanup. fold k. by rewrite Ha.
  - intros Ha. unfold KBE.cleanup. fold k. by rewrite Ha.
  - intros e Ha Hne. unfold KBE.cleanup. fold k. rewrite Ha.
    destruct e as [status | | | | |]; try reflexivity.
    destruct (Z.eqb_spec status 404) as [-> | _]; [done | reflexivity].
  - intros Ha. rewrite cleanup_state. unfold KBE.cleanup.
    assert (length (List.filter is_delete (KBE.api_calls (KBE.call delete_call st))) = S k)
      as ->.
    { simpl. rewrite List.filter_app, length_app. simpl. subst k. lia. }
    by rewrite Ha.
Qed.

(** *** The stop event *)

Lemma stop_sets_stop_event (st : KBE.State) : KBE.stop_event (KBE.stop st) = true.
Proof. reflexivity. Qed.

Lemma stop_idempotent (st : KBE.State) : KBE.stop (KBE.stop st) = KBE.stop st.
Proof. reflexivity. Qed.

Lemma quiet_when_stopped f st :
  KBE.stop_event st = true → type f ≠ "DELETED" →
  KBE.q (fst (handle_event f st)) = KBE.q st.
Proof.
  intros Hstop Htype. unfold KBE.handle_event.
  destruct (String.eqb_spec (type f) "DELETED") as [Heq | _]; [done |].
  replace (KBE.stop_event (KBE.set_pod (object f) st)) with true by (symmetry; exact Hstop).
  simpl negb. cbv iota.
  pose proof (cleanup_state (KBE.set_pod (object f) st)) as Hcl.
  destruct (String.eqb _ "Succeeded");
    [| destruct (String.eqb _ "Failed")];
    try (destruct (cleanup (KBE.set_pod (object f) st)) as [st2 [[] | e]];
         simpl in *; subst st2; reflexivity);
    reflexivity.
Qed.

(** C5, as the code has it.  The stop event is only ever set.  Once it is
    set: a turn of the watch loop that starts returns at once, with no call
    and no event; an event that is not a deletion puts nothing on the queue;
    and when the watch stream during which it was set runs out, [submit]
    returns without subscribing again.  The test inside the stream does not
    end it: a deletion event still emits its terminal event and returns, and
    a pod reported [Succeeded] or [Failed] is still deleted. *)
Theorem stop_event_checked st :
  KBE.stop_event st = true →
  KBE.stop_event (KBE.stop st) = true
  ∧ (∀ arriving, KBE.stop_event (fst (watch_events arriving st)) = true)
  ∧ (∀ streams, watch_loop streams st = (st, KBE.Returned))
  ∧ (∀ f, type f ≠ "DELETED" → KBE.q (fst (handle_event f st)) = KBE.q st)
  ∧ (∀ arriving, (∀ f, Item f ∈ arriving → type f ≠ "DELETED") →
     KBE.q (fst (watch_events arriving st)) = KBE.q st)
  ∧ (∀ w streams st0,
       KBE.stop_event st0 = false → ending w = None →
       watch_events (items w) (KBE.call watch_call st0) = (st, None) →
       watch_loop (w :: streams) st0 = (st, KBE.Returned))
  ∧ (∀ f, type f = "DELETED" →
     handle_event f st
     = (KBE.progress BUILD_STATUS_CHANGE
          (Status (if decide (status_phase (object f) = "Succeeded") then BUILT else FAILED))
          st,
        Some KBE.Returned))
  ∧ (∀ f, type f ≠ "DELETED" →
     status_phase (object f) = "Succeeded" ∨ status_phase (object f) = "Failed" →
     KBE.api_calls (fst (handle_event f st)) = KBE.api_calls st ++ [delete_call]).
Proof.
  intros Hstop. split; [reflexivity |].
  split; [intros; by apply stop_kept_watch_events |].
  split; [intros [| w streams]; simpl; by rewrite Hstop |].
  split; [intros; by apply quiet_when_stopped |].
  split.
  - intros arriving. revert st Hstop.
    induction arriving as [| [f |] arriving IH]; intros st Hstop Hnd; simpl.
    + reflexivity.
    + pose proof (quiet_when_stopped f st Hstop) as Hq.
      pose proof (handle_event_state f st) as [Hs _].
      destruct (handle_event f st) as [st1 [o |]]; simpl in *.
      * apply Hq, Hnd. left.
      * rewrite IH.
        -- apply Hq, Hnd. left.
        -- congruence.
        -- intros f' Hin. apply Hnd. by right.
    + rewrite IH; [reflexivity | reflexivity |].
      intros f' Hin. apply Hnd. by right.
  - split; [| split].
    + intros w streams st0 Hst0 Hend Hrun. simpl.
      by rewrite Hst0, Hrun, Hend, Hstop.
    + intros f Htype. by apply deleted_event_is_terminal.
    + intros f Htype Hphase. unfold KBE.handle_event.
      destruct (String.eqb_spec (type f) "DELETED") as [Heq | _]; [done |].
      replace (KBE.stop_event (KBE.set_pod (object f) st)) with true
        by (symmetry; exact Hstop).
      simpl negb. cbv iota.
      pose proof (cleanup_state (KBE.set_pod (object f) st)) as Hcl.
      destruct Hphase as [-> | ->]; simpl String.eqb; cbv iota;
        destruct (cleanup (KBE.set_pod (object f) st)) as [st2 [[] | e]];
        simpl in *; subst st2; reflexivity.
Qed.

(** *** Log lines *)

Lemma log_lines_app before after st :
  KBE.log_lines (before ++ after) st
  = match KBE.log_lines before st with
    | (st', Some o) => (st', Some o)
    | (st', None) => KBE.log_lines after st'
    end.
Proof.
  revert st. induction before as [| [line |] before IH]; intros st; simpl.
  - reflexivity.
  - destruct (KBE.handle_line line st) as [st1 [o |]]; [reflexivity | apply IH].
  - apply IH.
Qed.


(** While the stop event is not set, every line that decodes is forwarded. *)
Lemma log_lines_forward raws texts st :
  KBE.stop_event st = false →
  Forall2 (fun raw text => decode_utf8 raw = Some text) raws texts →
  ∃ st',
    KBE.log_lines (map Item raws) st = (st', None)
    ∧ KBE.q st' = KBE.q st ++ map Rule.forwarded texts
    ∧ KBE.stop_event st' = false.
Proof.
  intros Hstop Hdec. revert st Hstop.
  induction Hdec as [| raw text raws texts Hraw _ IH]; intros st Hstop; simpl.
  - exists st. by rewrite app_nil_r.
  - unfold KBE.handle_line. rewrite Hstop, Hraw.
    match goal with |- context [KBE.log_lines _ ?s] => destruct (IH s) as (st' & Hrun & Hq & Hs) end.
    { exact Hstop. }
    exists st'. rewrite Hrun. split; [reflexivity |]. split; [| exact Hs].
    rewrite Hq, q_progress, <- app_assoc. reflexivity.
Qed.


End Executor.
(** ** The cleaner *)

Section Cleaner.
Variable self : KC.Config.
Variable now : Z.
Variable delete_answer : nat → option exn.

Abbreviation rule := (Rule.deletion_rule self now).
Abbreviation delete_of build :=
  (delete_namespaced_pod (metadata_name build) (KC.namespace self) 0).

(** The local [delete] is set exactly for the pods the rule selects; deciding
    touches nothing but the log, where it never writes the final report. *)
Lemma decide_delete_spec build st :
  (snd (KC.decide_delete self now build st) = true ↔ rule build)
  ∧ KC.api_calls (fst (KC.decide_delete self now build st)) = KC.api_calls st
  ∧ KC.deleted (fst (KC.decide_delete self now build st)) = KC.deleted st
  ∧ (∀ d n, KC.info_deleted d n ∈ KC.log (fst (KC.decide_delete self now build st)) →
            KC.info_deleted d n ∈ KC.log st).
Proof.
  unfold KC.decide_delete, Rule.deletion_rule.
  fold Rule.finished_phases.
  assert (∀ r, (∀ d n, KC.info_deleted d n ≠ r) →
               ∀ d n, KC.info_deleted d n ∈ KC.log (KC.app_log r st) →
                      KC.info_deleted d n ∈ KC.log st) as Hlog.
  { intros r Hr d n Hin. simpl in Hin. apply elem_of_app in Hin as [Hin | Hin]; [done |].
    apply list_elem_of_singleton in Hin. by apply Hr in Hin. }
  case_bool_decide as Hphase.
  { simpl. repeat split; auto. by apply Hlog. }
  destruct (status_start_time build) as [t |]; simpl.
  - unfold KC.start_cutoff.
    destruct (truthy (KC.max_age self)) eqn:Hage; simpl.
    + apply truthy_int_spec in Hage.
      destruct (Z.ltb_spec t (now - KC.timedelta_seconds (KC.max_age self))); simpl.
      * repeat split; eauto 10. by apply Hlog.
      * repeat split; auto; try discriminate.
        intros [? | (_ & _ & t' & Heq & ?)]; [done |]. injection Heq as <-. lia.
    + assert (KC.max_age self = 0) as Hzero.
      { unfold truthy, truthy_int in Hage. destruct (Z.eqb_spec (KC.max_age self) 0); [done | discriminate]. }
      repeat split; auto; try discriminate.
      intros [? | (_ & ? & _)]; done.
  - repeat split; auto; try discriminate.
    intros [? | (_ & _ & t' & Heq & _)]; [done | discriminate].
Qed.

(** One turn of the loop: the counter is bumped and the delete call sent when
    the rule selects the pod, and nothing happens otherwise. *)
Lemma visit_spec build st :
  (rule build →
     KC.api_calls (fst (KC.visit self now delete_answer build st))
     = KC.api_calls st ++ [delete_of build]
     ∧ KC.deleted (fst (KC.visit self now delete_answer build st)) = KC.deleted st + 1)
  ∧ (¬ rule build →
     KC.api_calls (fst (KC.visit self now delete_answer build st)) = KC.api_calls st
     ∧ KC.deleted (fst (KC.visit self now delete_answer build st)) = KC.deleted st
     ∧ snd (KC.visit self now delete_answer build st) = Ok tt)
  ∧ (∀ d n, KC.info_deleted d n ∈ KC.log (fst (KC.visit self now delete_answer build st)) →
            KC.info_deleted d n ∈ KC.log st).
Proof.
  unfold KC.visit.
  destruct (decide_delete_spec build (KC.count_phase (status_phase build) st))
    as (Hdec & Hcalls & Hdel & Hlog).
  destruct (KC.decide_delete self now build _) as [st1 delete]. simpl in *.
  destruct delete.
  - assert (rule build) as Hrule by (by apply Hdec).
    split; [| split].
    + intros _.
      destruct (delete_answer _) as [[status | | | | |] |]; simpl;
        try (destruct (status =? 404); simpl); rewrite ?Hcalls, ?Hdel; by split.
    + intros Hn. done.
    + intros d n.
      destruct (delete_answer _) as [[status | | | | |] |]; simpl;
        try (destruct (status =? 404); simpl); apply Hlog.
  - assert (¬ rule build) as Hrule by (intros H; apply Hdec in H; discriminate).
    split; [done |]. split; [| exact Hlog].
    intros _. simpl. by rewrite Hcalls, Hdel.
Qed.

(** The sweep visits the builds in order until a delete call raises. *)
Lemma sweep_spec builds st :
  ∃ visited skipped,
    builds = visited ++ skipped
    ∧ KC.api_calls (fst (KC.sweep self now delete_answer builds st))
      = KC.api_calls st ++ map (fun build => delete_of build) (filter rule visited)
    ∧ KC.deleted (fst (KC.sweep self now delete_answer builds st))
      = KC.deleted st + Z.of_nat (length (filter rule visited))
    ∧ (snd (KC.sweep self now delete_answer builds st) = Ok tt → skipped = [])
    ∧ (∀ d n, KC.info_deleted d n ∈ KC.log (fst (KC.sweep self now delete_answer builds st)) →
              KC.info_deleted d n ∈ KC.log st).
Proof.
  revert st. induction builds as [| build builds IH]; intros st; simpl.
  - exists [], []. simpl. rewrite app_nil_r, Z.add_0_r. by repeat split.
  - destruct (visit_spec build st) as (Hyes & Hno & Hlog).
    assert (KC.api_calls (fst (KC.visit self now delete_answer build st))
            = KC.api_calls st ++ map (fun build => delete_of build) (filter rule [build])
            ∧ KC.deleted (fst (KC.visit self now delete_answer build st))
              = KC.deleted st + Z.of_nat (length (filter rule [build]))) as [Hcalls Hdel].
    { destruct (decide (rule build)) as [Hr | Hr].
      - rewrite filter_cons_True by exact Hr. destruct (Hyes Hr) as [-> ->]. by split.
      - rewrite filter_cons_False by exact Hr. destruct (Hno Hr) as (-> & -> & _).
        simpl. rewrite app_nil_r, Z.add_0_r. by split. }
    destruct (KC.visit self now delete_answer build st) as [st1 [[] | e]]; simpl in *.
    + destruct (IH st1) as (visited & skipped & -> & Hc & Hd & Hok & Hl).
      exists (build :: visited), skipped.
      split; [reflexivity |]. split; [| split; [| split]].
      * rewrite Hc, Hcalls, <- app_assoc, <- map_app.
        change (build :: visited) with ([build] ++ visited). by rewrite filter_app.
      * rewrite Hd, Hdel.
        change (build :: visited) with ([build] ++ visited).
        rewrite filter_app, length_app. lia.
      * exact Hok.
      * intros d n Hin. apply Hlog, Hl, Hin.
    + exists [build], builds. split; [reflexivity |].
      split; [exact Hcalls |]. split; [exact Hdel |]. split; [discriminate | exact Hlog].
Qed.

Lemma filter_delete_calls (builds : list V1Pod) :
  List.filter is_delete (map (fun build => delete_of build) builds)
  = map (fun build => delete_of build) builds.
Proof. induction builds as [| b builds IH]; simpl; [reflexivity | by rewrite IH]. Qed.

(** A pod in a finished phase is selected whatever its age. *)
Lemma finished_pod_selected build :
  status_phase build ∈ Rule.finished_phases → rule build.
Proof. intros H. by left. Qed.

(** A pod that is not in a finished phase and is not older than [max_age] is
    not selected. *)
Lemma young_pod_not_selected build t :
  status_phase build ∉ Rule.finished_phases →
  status_start_time build = Some t →
  now - KC.timedelta_seconds (KC.max_age self) <= t →
  ¬ rule build.
Proof.
  intros Hphase Hstart Hyoung [H | (_ & _ & t' & Heq & Hlt)]; [done |].
  rewrite Hstart in Heq. injection Heq as <-. lia.
Qed.

(** The whole of [cleanup] on a listing that was obtained. *)
Lemma cleanup_spec builds :
  ∃ visited skipped,
    builds = visited ++ skipped
    ∧ KC.api_calls (fst (KC.cleanup self now delete_answer (Ok builds)))
      = list_namespaced_pod (KC.namespace self) "component=binderhub-build"
        :: map (fun build => delete_of build) (filter rule visited)
    ∧ KC.deleted (fst (KC.cleanup self now delete_answer (Ok builds)))
      = Z.of_nat (length (filter rule visited))
    ∧ (snd (KC.cleanup self now delete_answer (Ok builds)) = Ok tt → skipped = [])
    ∧ (∀ d n, KC.info_deleted d n ∈ KC.log (fst (KC.cleanup self now delete_answer (Ok builds))) →
         snd (KC.cleanup self now delete_answer (Ok builds)) = Ok tt
         ∧ d = Z.of_nat (length (filter rule visited)) ∧ d ≠ 0 ∧ n = length builds)
    ∧ (snd (KC.cleanup self now delete_answer (Ok builds)) = Ok tt →
       filter rule visited ≠ [] →
       KC.info_deleted (Z.of_nat (length (filter rule visited))) (length builds)
       ∈ KC.log (fst (KC.cleanup self now delete_answer (Ok builds)))).
Proof.
  unfold KC.cleanup.
  set (st0 := KC.app_log _ (KC.call _ KC.initial)).
  destruct (sweep_spec builds st0) as (visited & skipped & Hsplit & Hcalls & Hdel & Hok & Hlog).
  exists visited, skipped. split; [exact Hsplit |].
  assert (∀ d n, KC.info_deleted d n ∉ KC.log st0) as Hlog0.
  { intros d n Hin. subst st0. simpl in Hin.
    apply list_elem_of_singleton in Hin. discriminate Hin. }
  destruct (KC.sweep self now delete_answer builds st0) as [st1 [[] | e]]; simpl in *.
  - assert (KC.deleted st1 = Z.of_nat (length (filter rule visited))) as Hd by lia.
    destruct (truthy (KC.deleted st1)) eqn:Htruthy; simpl.
    + apply truthy_int_spec in Htruthy.
      split; [exact Hcalls |]. split; [exact Hd |]. split; [exact Hok |]. split.
      * intros d n Hin.
        apply elem_of_app in Hin as [Hin | Hin];
          [| apply list_elem_of_singleton in Hin; discriminate Hin].
        apply elem_of_app in Hin as [Hin | Hin]; [by apply Hlog, Hlog0 in Hin |].
        apply list_elem_of_singleton in Hin. injection Hin as -> ->.
        rewrite <- Hd. by repeat split.
      * intros _ _. rewrite <- Hd. apply elem_of_app. left. apply elem_of_app. right.
        by apply list_elem_of_singleton.
    + assert (KC.deleted st1 = 0) as Hzero.
      { unfold truthy, truthy_int in Htruthy.
        destruct (Z.eqb_spec (KC.deleted st1) 0); [done | discriminate]. }
      split; [exact Hcalls |]. split; [exact Hd |]. split; [exact Hok |]. split.
      * intros d n Hin.
        apply elem_of_app in Hin as [Hin | Hin];
          [| apply list_elem_of_singleton in Hin; discriminate Hin].
        by apply Hlog, Hlog0 in Hin.
      * intros _ Hne. destruct (filter rule visited); [done | simpl in Hd; lia].
  - split; [exact Hcalls |]. split; [lia |]. split; [discriminate |]. split.
    + intros d n Hin. by apply Hlog, Hlog0 in Hin.
    + discriminate.
Qed.


(** C10.  The counter of a sweep equals the number of delete calls it has
    sent, whatever their answers (a call answered with 404 counts, since the
    counter is bumped before the call).  The count is reported only by a
    sweep that returns normally, and the count reported is the number of
    listed pods that the rule selects; such a sweep reports whenever that
    number is not zero. *)
Theorem deleted_count_counts_attempts builds :
  KC.deleted (fst (KC.cleanup self now delete_answer (Ok builds)))
  = Z.of_nat (length (List.filter is_delete
                        (KC.api_calls (fst (KC.cleanup self now delete_answer (Ok builds))))))
  ∧ (∀ d n,
       KC.info_deleted d n ∈ KC.log (fst (KC.cleanup self now delete_answer (Ok builds))) →
       snd (KC.cleanup self now delete_answer (Ok builds)) = Ok tt
       ∧ d = Z.of_nat (length (filter rule builds))
       ∧ n = length builds)
  ∧ (snd (KC.cleanup self now delete_answer (Ok builds)) = Ok tt →
     filter rule builds ≠ [] →
     KC.info_deleted (Z.of_nat (length (filter rule builds))) (length builds)
     ∈ KC.log (fst (KC.cleanup self now delete_answer (Ok builds)))).
Proof.
  destruct (cleanup_spec builds)
    as (visited & skipped & Hsplit & Hcalls & Hdel & Hok & Hrep & Hdoes).
  split; [| split].
  - rewrite Hdel, Hcalls. simpl. by rewrite filter_delete_calls, length_map.
  - intros d n Hin. destruct (Hrep d n Hin) as (Hr & Hd & _ & Hn).
    split; [exact Hr |]. split; [| exact Hn].
    rewrite (Hok Hr), app_nil_r in Hsplit. by subst visited.
  - intros Hr Hne. rewrite (Hok Hr), app_nil_r in Hsplit. subst visited.
    by apply Hdoes.
Qed.

End Cleaner.
(** ** Concrete runs *)

(** A run of C2: the pod is seen running, then its deletion is reported with
    phase [Succeeded]; the executor reports [RUNNING], then [BUILT], and
    returns. *)
Lemma deletion_event_ends_watch_witness :
  ∃ st',
    KBE.watch_loop (Sample.executor false) (Sample.cluster (Sample.pod_list []) [] [])
      [ {| items := [Sample.event "MODIFIED" "Running"; Sample.event "DELETED" "Succeeded";
                     Sample.event "MODIFIED" "Failed"];
           ending := None |} ]
      KBE.initial
    = (st', KBE.Returned)
    ∧ KBE.q st'
      = [ProgressEvent BUILD_STATUS_CHANGE (Status RUNNING);
         ProgressEvent BUILD_STATUS_CHANGE (Status BUILT)].
Proof.
  eexists. split.
  - apply (deletion_event_ends_watch (Sample.executor false)
             (Sample.cluster (Sample.pod_list []) [] [])
             _ [] [Sample.event "MODIFIED" "Running"]
             {| type := "DELETED"; object := Sample.reported "Succeeded" |}
             [Sample.event "MODIFIED" "Failed"] KBE.initial);
      reflexivity.
  - reflexivity.
Defined.

(** C3 as stated fails on this run: with sticky builds and no image-builder
    pod in the listing, building the manifest raises [IndexError]; [submit]
    raises it and no create call is sent, although the cluster would have
    accepted the pod and reported it built. *)
Lemma submit_raises_before_create :
  ∃ st',
    KBE.submit (lib := py_model) Sample.hash Sample.urlparse_path (Sample.executor true)
      (Sample.cluster (Sample.pod_list [])
         [[Sample.event "ADDED" "Running"; Sample.event "DELETED" "Succeeded"]] [])
      KBE.initial
    = (st', KBE.Raised IndexError)
    ∧ List.filter is_create (KBE.api_calls st') = []
    ∧ KBE.q st' = [].
Proof.
  eexists. split; [reflexivity |]. split; reflexivity.
Defined.

(** A run of C3 as amended: the create call is answered with a conflict; the
    one create call is followed by a watch, on which the existing pod is seen
    to succeed and go. *)
Lemma submit_creates_at_most_once_witness :
  let cluster :=
    Sample.answering (Some (ApiException 409)) (fun _ => None)
      (Sample.cluster (Sample.pod_list [])
         [[Sample.event "ADDED" "Running"; Sample.event "DELETED" "Succeeded"]] []) in
  let run := KBE.submit (lib := py_model) Sample.hash Sample.urlparse_path
               (Sample.executor false) cluster KBE.initial in
  length (List.filter is_create (KBE.api_calls (fst run))) = 1%nat
  ∧ length (List.filter is_watch (KBE.api_calls (fst run))) = 1%nat
  ∧ snd run = KBE.Returned.
Proof.
  intros cluster run.
  destruct (submit_creates_at_most_once (lib := py_model) Sample.hash Sample.urlparse_path
              (Sample.executor false) cluster KBE.initial)
    as (_ & _ & Hcreated).
  destruct (Hcreated _ _ eq_refl) as (Hcreate & Hwatch & _).
  split; [| split].
  - subst run. rewrite Hcreate. reflexivity.
  - subst run. rewrite Hwatch by (right; reflexivity). reflexivity.
  - subst run. rewrite Hwatch by (right; reflexivity). reflexivity.
Defined.

(** A run of C4: two calls of [cleanup] in a row, both answered with 404. *)
Lemma cleanup_tolerates_not_found_witness :
  let self := Sample.executor false in
  let cluster :=
    Sample.answering None (Sample.always 404) (Sample.cluster (Sample.pod_list []) [] []) in
  snd (KBE.cleanup self cluster KBE.initial) = Ok tt
  ∧ snd (KBE.cleanup self cluster (fst (KBE.cleanup self cluster KBE.initial))) = Ok tt
  ∧ KBE.api_calls (fst (KBE.cleanup self cluster KBE.initial))
    = [delete_namespaced_pod "build-org-2drepo-0123ab" "default" 0].
Proof.
  intros self cluster.
  destruct (cleanup_tolerates_not_found self cluster KBE.initial)
    as (Hcall & _ & Hfirst & _ & Hsecond).
  split; [| split].
  - apply Hfirst. reflexivity.
  - apply Hsecond. reflexivity.
  - rewrite Hcall. reflexivity.
Defined.

(** C5 as stated fails on this run: [stop()] is called while the watch is
    open; the next event reports the pod [Failed], for which no event is
    emitted but the pod is deleted; the deletion event that follows puts the
    terminal [FAILED] on the queue. *)
Lemma terminal_event_and_delete_after_stop :
  ∃ st',
    KBE.submit (lib := py_model) Sample.hash Sample.urlparse_path (Sample.executor false)
      (Sample.cluster (Sample.pod_list [])
         [[StopCalled; Sample.event "MODIFIED" "Failed"; Sample.event "DELETED" "Failed"]] [])
      KBE.initial
    = (st', KBE.Returned)
    ∧ KBE.stop_event st' = true
    ∧ ProgressEvent.terminal_events (KBE.q st')
      = [ProgressEvent BUILD_STATUS_CHANGE (Status FAILED)]
    ∧ List.filter is_delete (KBE.api_calls st')
      = [delete_namespaced_pod "build-org-2drepo-0123ab" "default" 0].
Proof.
  eexists. split; [reflexivity |]. repeat split; reflexivity.
Defined.

(** A run of C5 as amended: [stop()] is called while the watch is open; the
    events that follow, none of them a deletion, put nothing on the queue,
    and when the stream runs out [submit] returns without a second watch. *)
Lemma stop_event_checked_witness :
  let self := Sample.executor false in
  let cluster := Sample.cluster (Sample.pod_list []) [] [] in
  let w := {| items := [Sample.event "ADDED" "Pending"; StopCalled;
                        Sample.event "MODIFIED" "Running"];
              ending := None |} in
  ∃ st,
    KBE.stop_event st = true
    ∧ KBE.watch_loop self cluster [w; w] KBE.initial = (st, KBE.Returned)
    ∧ KBE.q st = [ProgressEvent BUILD_STATUS_CHANGE (Status PENDING)]
    ∧ length (List.filter is_watch (KBE.api_calls st)) = 1%nat.
Proof.
  intros self cluster w.
  eexists. split; [| split; [| split]].
  2:{ eapply (stop_event_checked self cluster).
      - shelve.
      - reflexivity.
      - reflexivity.
      - reflexivity. }
  Unshelve.
  all: reflexivity.
Defined.





(** A sweep of C10: two finished pods whose delete calls are both answered
    with 404; the sweep reports two deletions. *)
Lemma deleted_count_counts_attempts_witness :
  let now := 100000 * 1000000 in
  let builds :=
    [Sample.build_pod "build-a" "Succeeded" 99999;
     Sample.build_pod "build-b" "Failed" 99999;
     Sample.build_pod "build-c" "Running" 99999] in
  let run := KC.cleanup (Sample.cleaner 14400) now (Sample.always 404) (Ok builds) in
  snd run = Ok tt
  ∧ KC.deleted (fst run) = 2
  ∧ KC.info_deleted 2 3 ∈ KC.log (fst run).
Proof.
  intros now builds run.
  destruct (deleted_count_counts_attempts (Sample.cleaner 14400) now (Sample.always 404) builds)
    as (Hcount & _ & Hreport).
  split; [reflexivity |]. split.
  - subst run. rewrite Hcount. reflexivity.
  - apply (Hreport eq_refl). vm_compute. discriminate.
Defined.

(** * Further properties *)

(** ** The command line *)

Lemma str_int_no_double_dash (z : Z) (rest : string) : str_int z ≠ "--" +:+ rest.
Proof.
  unfold str_int, pretty, pretty_Z. destruct z as [| p | p].
  - discriminate.
  - unfold pretty, pretty_positive, pretty, pretty_N.
    destruct (decide (N.pos p = 0%N)); [discriminate |].
    by apply pretty_N_go_ne_dash.
  - unfold pretty, pretty_positive, pretty, pretty_N.
    destruct (decide (N.pos p = 0%N)); [discriminate |].
    simpl. intros Heq. injection Heq as Heq. simpl in Heq.
    by apply (pretty_N_go_ne_dash (N.pos p) "" rest) in Heq.
Qed.

Lemma get_cmd_eq (self : BE.Config) :
  BE.get_cmd self
  = ["jupyter-repo2docker"; "--ref=" +:+ BE.ref self; "--image=" +:+ BE.image_name self;
     "--no-clean"; "--no-run"; "--json-logs"; "--user-name=jovyan"; "--user-id=1000"]
    ++ ((if truthy (BE.appendix self) then ["--appendix"; BE.appendix self] else [])
        ++ (if truthy (BE.push_secret self) then ["--push"] else [])
        ++ (if truthy (BE.memory_limit self)
            then ["--build-memory-limit"; str_int (BE.memory_limit self)] else []))
    ++ BE.repo2docker_extra_args self ++ [BE.repo_url self].
Proof.
  unfold BE.get_cmd, BE.get_r2d_cmd_options.
  destruct (truthy (BE.appendix self)), (truthy (BE.push_secret self)),
    (truthy (BE.memory_limit self)); simpl; rewrite <- ?app_assoc; reflexivity.
Qed.

(** The command line starts with the program and the seven fixed options,
    ends with the free-form arguments followed by the repository URL, and has
    at most five optional words in between. *)
Theorem get_cmd_shape (self : BE.Config) :
  ∃ optional,
    BE.get_cmd self
    = ["jupyter-repo2docker"; "--ref=" +:+ BE.ref self; "--image=" +:+ BE.image_name self;
       "--no-clean"; "--no-run"; "--json-logs"; "--user-name=jovyan"; "--user-id=1000"]
      ++ optional ++ BE.repo2docker_extra_args self ++ [BE.repo_url self]
    ∧ (length optional ≤ 5)%nat
    ∧ last (BE.get_cmd self) = Some (BE.repo_url self).
Proof.
  eexists. split; [apply get_cmd_eq |]. split.
  - destruct (truthy (BE.appendix self)), (truthy (BE.push_secret self)),
      (truthy (BE.memory_limit self)); simpl; lia.
  - unfold BE.get_cmd. apply last_snoc.
Qed.

(** The push flag is on the command line exactly when a push secret is
    configured, unless one of the free-form fields spells it. *)
Theorem push_flag_iff_push_secret (self : BE.Config) :
  "--push" ∈ BE.get_cmd self
  ↔ BE.push_secret self ≠ ""
    ∨ BE.appendix self = "--push"
    ∨ "--push" ∈ BE.repo2docker_extra_args self
    ∨ BE.repo_url self = "--push".
Proof.
  rewrite get_cmd_eq.
  assert ("--push" ∉ ["jupyter-repo2docker"; "--ref=" +:+ BE.ref self;
                       "--image=" +:+ BE.image_name self; "--no-clean"; "--no-run";
                       "--json-logs"; "--user-name=jovyan"; "--user-id=1000"]) as Hfixed.
  { rewrite !elem_of_cons, elem_of_nil. simpl.
    intros H; decompose [or] H; first [discriminate | contradiction]. }
  assert ("--push" ∈ (if truthy (BE.appendix self)
                       then ["--appendix"; BE.appendix self] else [])
          ↔ BE.appendix self = "--push") as Happendix.
  { destruct (truthy (BE.appendix self)) eqn:Ha.
    - rewrite !elem_of_cons, elem_of_nil. split.
      + intros [H | [H | []]]; [discriminate | by symmetry].
      + intros ->. auto.
    - rewrite elem_of_nil. split; [done |].
      intros Heq. rewrite Heq in Ha. discriminate Ha. }
  assert ("--push" ∈ (if truthy (BE.push_secret self) then ["--push"] else [])
          ↔ BE.push_secret self ≠ "") as Hpush.
  { rewrite <- truthy_str_spec. destruct (truthy (BE.push_secret self)).
    - rewrite list_elem_of_singleton. done.
    - rewrite elem_of_nil. split; [done | discriminate]. }
  assert ("--push" ∉ (if truthy (BE.memory_limit self)
                       then ["--build-memory-limit"; str_int (BE.memory_limit self)]
                       else [])) as Hmemory.
  { destruct (truthy (BE.memory_limit self)); [| apply not_elem_of_nil].
    rewrite !elem_of_cons, elem_of_nil.
    intros [H | [H | []]]; [discriminate |].
    by apply (str_int_no_double_dash (BE.memory_limit self) "push"). }
  rewrite !elem_of_app, list_elem_of_singleton, Happendix, Hpush.
  split.
  - intros [H | [[H | [H | H]] | [H | H]]]; try done; auto.
  - intros [H | [H | [H | H]]]; auto 10.
Qed.

(** The sample build has a memory limit of 4 GiB. *)
Lemma memory_limit_gives_flag_witness :
  BE.memory_limit Sample.build ≠ 0
  ∧ ∃ before after,
      BE.get_cmd Sample.build = before ++ ["--build-memory-limit"; "4294967296"] ++ after.
Proof.
  split; [discriminate |].
  apply (memory_limit_gives_flag Sample.build). discriminate.
Defined.

(** ** The pod manifest *)

Section Manifest.
Context {lib : PyLib}.
Variable hash : json → string → Z.
Variable urlparse_path : string → string.
Variable self : KBE.Config.

(** Every volume mount of the build container refers, by name and in order,
    to a volume of the pod.  The docker socket is mounted exactly when a
    docker host is configured, and the push secret exactly when it is set
    and no registry credentials are. *)
Theorem builder_volumes_consistent :
  let volumes := fst (KBE.get_builder_volumes urlparse_path self) in
  let mounts := snd (KBE.get_builder_volumes urlparse_path self) in
  map mount_name mounts = map Reading.volume_name volumes
  ∧ ("docker-socket" ∈ map Reading.volume_name volumes ↔ KBE.docker_host self ≠ None)
  ∧ ("docker-config" ∈ map Reading.volume_name volumes
     ↔ BE.registry_credentials (KBE.base self) = []
       ∧ BE.push_secret (KBE.base self) ≠ "").
Proof.
  unfold KBE.get_builder_volumes.
  rewrite <- (truthy_str_spec (BE.push_secret (KBE.base self))).
  destruct (KBE.docker_host self) as [host |];
    destruct (BE.registry_credentials (KBE.base self)) as [| c cs];
    destruct (truthy (BE.push_secret (KBE.base self))); simpl;
    (split; [reflexivity |]);
    rewrite ?elem_of_cons, ?elem_of_nil;
    (split;
     (split;
      [ intros H; decompose [or] H; try done; try discriminate
      | intros H; try (destruct H; done); auto ])).
Qed.

(** Registry credentials and the push secret are never both handed to the
    build container: when registry credentials are configured they are the
    last variable of the environment and the secret is not mounted; when
    they are not, the environment has no variable beyond the extra ones and
    the git credentials. *)
Theorem credentials_are_exclusive :
  let volumes := fst (KBE.get_builder_volumes urlparse_path self) in
  (BE.registry_credentials (KBE.base self) ≠ [] →
     (∃ value, last (KBE.build_env self)
               = Some {| env_name := "CONTAINER_ENGINE_REGISTRY_CREDENTIALS";
                         env_value := value |})
     ∧ "docker-config" ∉ map Reading.volume_name volumes)
  ∧ (BE.registry_credentials (KBE.base self) = [] →
     KBE.build_env self
     = map (fun kv => {| env_name := fst kv; env_value := snd kv |}) (KBE.extra_envs self)
       ++ (if truthy (BE.git_credentials (KBE.base self))
           then [{| env_name := "GIT_CREDENTIAL_ENV";
                    env_value := BE.git_credentials (KBE.base self) |}]
           else [])).
Proof.
  intros volumes. split.
  - intros Hcreds. split.
    + unfold KBE.build_env.
      destruct (BE.registry_credentials (KBE.base self)) as [| c cs]; [done |].
      simpl truthy. cbv iota. eexists. apply last_snoc.
    + subst volumes. unfold KBE.get_builder_volumes.
      destruct (BE.registry_credentials (KBE.base self)) as [| c cs]; [done |].
      destruct (KBE.docker_host self) as [host |]; simpl;
        rewrite ?elem_of_cons, ?elem_of_nil;
        intros H; decompose [or] H; first [discriminate | contradiction].
  - intros Hcreds. unfold KBE.build_env. rewrite Hcreds. simpl.
    destruct (truthy (BE.git_credentials (KBE.base self))); [reflexivity |].
    by rewrite app_nil_r.
Qed.

End Manifest.

(** ** What [submit] says and does *)

Section Watching.
Context {lib : PyLib}.
Variable hash : json → string → Z.
Variable urlparse_path : string → string.
Variable self : KBE.Config.
Variable cluster : KBE.Cluster.

Abbreviation watch_call :=
  (watch_namespaced_pod (KBE.namespace self) ("name=" +:+ KBE.name self) 30).
Abbreviation delete_call :=
  (delete_namespaced_pod (KBE.name self) (KBE.namespace self) 0).
Abbreviation status_event s := (ProgressEvent BUILD_STATUS_CHANGE (Status s)).

(** The queue after one event. *)
Lemma handle_event_queue f st :
  (type f = "DELETED" ∧
   ∃ s, (s = BUILT ∨ s = FAILED)
        ∧ KBE.handle_event self cluster f st
          = (KBE.progress BUILD_STATUS_CHANGE (Status s) st, Some KBE.Returned))
  ∨ (type f ≠ "DELETED"
     ∧ snd (KBE.handle_event self cluster f st) ≠ Some KBE.Returned
     ∧ snd (KBE.handle_event self cluster f st) ≠ Some KBE.Watching
     ∧ KBE.q (fst (KBE.handle_event self cluster f st))
       = KBE.q st
         ++ (if KBE.stop_event st then []
             else match Reading.status_of_phase (status_phase (object f)) with
                  | Some s => [status_event s]
                  | None => []
                  end)).
Proof.
  destruct (String.eqb_spec (type f) "DELETED") as [Hdel | Hdel].
  - left. split; [exact Hdel |]. unfold KBE.handle_event. rewrite Hdel. simpl.
    destruct (String.eqb _ "Succeeded"); eauto.
  - right. split; [exact Hdel |].
    unfold KBE.handle_event.
    destruct (String.eqb_spec (type f) "DELETED") as [Heq | _]; [done |].
    assert (KBE.stop_event (KBE.set_pod (object f) st) = KBE.stop_event st) as -> by reflexivity.
    set (st1 := if negb (KBE.stop_event st) then _ else _).
    assert (KBE.q st1
            = KBE.q st
              ++ (if KBE.stop_event st then []
                  else match Reading.status_of_phase (status_phase (object f)) with
                       | Some s => [status_event s]
                       | None => []
                       end)) as Hq.
    { subst st1. destruct (KBE.stop_event st); simpl; [by rewrite app_nil_r |].
      unfold KBE.dispatch_phase, Reading.status_of_phase.
      repeat (match goal with |- context [String.eqb ?a ?b] => destruct (String.eqb a b) end;
              [first [reflexivity | symmetry; apply app_nil_r] |]).
      symmetry. apply app_nil_r. }
    pose proof (cleanup_state self cluster st1) as Hcl.
    destruct (String.eqb _ "Succeeded"); [| destruct (String.eqb _ "Failed")];
      try (destruct (KBE.cleanup self cluster st1) as [st2 [[] | e]];
           simpl in *; subst st2; repeat split; try discriminate; exact Hq);
      simpl; repeat split; try discriminate; exact Hq.
Qed.

Lemma watch_loop_queue streams st :
  ∃ more,
    KBE.q (fst (KBE.watch_loop self cluster streams st)) = KBE.q st ++ more
    ∧ List.filter Reading.is_log more = []
    ∧ (List.filter Reading.is_built more = []
       ∨ ∃ before,
           more = before ++ [status_event BUILT]
           ∧ List.filter Reading.is_built before = []
           ∧ snd (KBE.watch_loop self cluster streams st) = KBE.Returned).
Proof.
  assert (∀ arriving st,
            ∃ more,
              KBE.q (fst (KBE.watch_events self cluster arriving st)) = KBE.q st ++ more
              ∧ List.filter Reading.is_log more = []
              ∧ (List.filter Reading.is_built more = []
                 ∨ ∃ before,
                     more = before ++ [status_event BUILT]
                     ∧ List.filter Reading.is_built before = []
                     ∧ snd (KBE.watch_events self cluster arriving st) = Some KBE.Returned))
    as Hevents.
  { clear st. induction arriving as [| [f |] arriving IH]; intros st; simpl.
    - exists []. rewrite app_nil_r. auto.
    - destruct (handle_event_queue f st) as [(_ & s & Hs & Hrun) | (_ & Hret & _ & Hq)].
      + rewrite Hrun. simpl. exists [status_event s]. split; [apply q_progress |].
        split; [reflexivity |].
        destruct Hs as [-> | ->]; [right; exists []; auto | left; reflexivity].
      + destruct (KBE.handle_event self cluster f st) as [st1 [o |]]; simpl in *.
        * eexists. split; [exact Hq |].
          destruct (KBE.stop_event st); [auto |].
          unfold Reading.status_of_phase.
          repeat (match goal with
                  | |- context [String.eqb ?a ?b] => destruct (String.eqb a b)
                  end; [auto |]).
          auto.
        * destruct (IH st1) as (more & Hmore & Hlog & Hbuilt).
          set (first := if KBE.stop_event st then [] else _) in Hq.
          assert (List.filter Reading.is_log first = []
                  ∧ List.filter Reading.is_built first = []) as [Hl Hb].
          { subst first. destruct (KBE.stop_event st); [auto |].
            unfold Reading.status_of_phase.
            repeat (match goal with
                    | |- context [String.eqb ?a ?b] => destruct (String.eqb a b)
                    end; [auto |]).
            auto. }
          exists (first ++ more). rewrite Hmore, Hq, <- app_assoc.
          split; [reflexivity |]. rewrite !List.filter_app, Hl, Hb, Hlog. simpl.
          split; [reflexivity |].
          destruct Hbuilt as [Hnone | (before & -> & Hbefore & Hret')]; [by left |].
          right. exists (first ++ before). rewrite <- app_assoc.
          split; [reflexivity |]. by rewrite List.filter_app, Hb, Hbefore.
    - destruct (IH (KBE.stop st)) as (more & Hmore & Hrest). exists more.
      split; [exact Hmore | exact Hrest]. }
  revert st. induction streams as [| w streams IH]; intros st; simpl.
  - exists []. rewrite app_nil_r.
    destruct (KBE.stop_event st); auto.
  - destruct (KBE.stop_event st); [exists []; rewrite app_nil_r; auto |].
    destruct (Hevents (items w) (KBE.call watch_call st)) as (more & Hmore & Hlog & Hbuilt).
    destruct (KBE.watch_events self cluster (items w) (KBE.call watch_call st))
      as [st1 [o |]]; simpl in *.
    + exists more. split; [exact Hmore |]. split; [exact Hlog |].
      destruct Hbuilt as [Hnone | (before & -> & Hbefore & [= ->])]; [by left |].
      right. eauto.
    + assert (List.filter Reading.is_built more = []) as Hnone.
      { destruct Hbuilt as [Hnone | (before & _ & _ & Hret)]; [done | discriminate Hret]. }
      destruct (ending w); [exists more; auto |].
      destruct (KBE.stop_event st1); [exists more; auto |].
      destruct (IH st1) as (more' & Hmore' & Hlog' & Hbuilt').
      exists (more ++ more'). rewrite Hmore', Hmore, <- app_assoc.
      split; [reflexivity |]. rewrite !List.filter_app, Hlog, Hlog', Hnone. simpl.
      split; [reflexivity |].
      destruct Hbuilt' as [Hnone' | (before & -> & Hbefore & Hret)]; [by left |].
      right. exists (more ++ before). rewrite <- app_assoc.
      split; [reflexivity |]. by rewrite List.filter_app, Hnone, Hbefore.
Qed.

(** The events that [submit] puts on the queue are status changes only;
    [BUILT] is put at most once, as the last event, and then [submit]
    returns. *)
Theorem submit_queue st :
  ∃ more,
    KBE.q (fst (KBE.submit hash urlparse_path self cluster st)) = KBE.q st ++ more
    ∧ List.filter Reading.is_log more = []
    ∧ (List.filter Reading.is_built more = []
       ∨ ∃ before,
           more = before ++ [status_event BUILT]
           ∧ List.filter Reading.is_built before = []
           ∧ snd (KBE.submit hash urlparse_path self cluster st) = KBE.Returned).
Proof.
  assert (∀ st0, KBE.q st0 = KBE.q st →
            ∃ more,
              KBE.q (fst (KBE.watch_loop self cluster (KBE.watch_streams cluster) st0))
              = KBE.q st ++ more
              ∧ List.filter Reading.is_log more = []
              ∧ (List.filter Reading.is_built more = []
                 ∨ ∃ before,
                     more = before ++ [status_event BUILT]
                     ∧ List.filter Reading.is_built before = []
                     ∧ snd (KBE.watch_loop self cluster (KBE.watch_streams cluster) st0)
                       = KBE.Returned)) as Hloop.
  { intros st0 <-. apply watch_loop_queue. }
  assert (∃ more : list ProgressEvent.t,
            KBE.q st = KBE.q st ++ more
            ∧ List.filter Reading.is_log more = []
            ∧ List.filter Reading.is_built more = []) as Hnothing.
  { exists []. by rewrite app_nil_r. }
  unfold KBE.submit.
  assert (KBE.q (fst (KBE.get_affinity hash self cluster st)) = KBE.q st) as Hq.
  { unfold KBE.get_affinity.
    destruct (KBE.image_builder_pods cluster); [| reflexivity].
    destruct (_ && _); reflexivity. }
  destruct (KBE.get_affinity hash self cluster st) as [st1 [affinity | e]]; simpl in Hq.
  - set (st2 := KBE.call _ (KBE.set_pod _ st1)).
    assert (KBE.q st2 = KBE.q st) as Hq2 by (rewrite <- Hq; reflexivity).
    assert (∀ o : KBE.outcome,
              ∃ more,
                KBE.q (fst (st2, o)) = KBE.q st ++ more
                ∧ List.filter Reading.is_log more = []
                ∧ (List.filter Reading.is_built more = []
                   ∨ ∃ before,
                       more = before ++ [status_event BUILT]
                       ∧ List.filter Reading.is_built before = []
                       ∧ snd (st2, o) = KBE.Returned)) as Hraise.
    { intros o. exists []. cbn [fst]. rewrite Hq2, app_nil_r. auto. }
    destruct (KBE.create_answer cluster) as [[status | | | | |] |];
      try apply Hraise; try (apply Hloop; exact Hq2).
    destruct (status =? 409); [apply Hloop; exact Hq2 | apply Hraise].
  - exists []. cbn [fst]. rewrite Hq, app_nil_r. auto.
Qed.

(** *** The calls [submit] makes *)

Lemma watch_events_calls arriving st :
  ∃ more,
    KBE.api_calls (fst (KBE.watch_events self cluster arriving st)) = KBE.api_calls st ++ more
    ∧ Forall (fun c => c = delete_call) more.
Proof.
  revert st. induction arriving as [| [f |] arriving IH]; intros st; simpl.
  - exists []. by rewrite app_nil_r.
  - pose proof (handle_event_state self cluster f st) as [_ Hc].
    destruct (KBE.handle_event self cluster f st) as [st1 [o |]]; simpl in *.
    + destruct Hc as [-> | ->]; [exists []; by rewrite app_nil_r | eexists; eauto].
    + destruct (IH st1) as (more & -> & Hmore).
      destruct Hc as [-> | ->]; [eauto |].
      exists (delete_call :: more). rewrite <- app_assoc. auto.
  - destruct (IH (KBE.stop st)) as (more & Hcalls & Hmore). eauto.
Qed.

Lemma watch_loop_calls streams st :
  ∃ more,
    KBE.api_calls (fst (KBE.watch_loop self cluster streams st)) = KBE.api_calls st ++ more
    ∧ Forall (fun c => c = watch_call ∨ c = delete_call) more.
Proof.
  revert st. induction streams as [| w streams IH]; intros st; simpl.
  - exists []. rewrite app_nil_r. destruct (KBE.stop_event st); auto.
  - destruct (KBE.stop_event st); [exists []; by rewrite app_nil_r |].
    destruct (watch_events_calls (items w) (KBE.call watch_call st)) as (more & Hcalls & Hmore).
    assert (Forall (fun c => c = watch_call ∨ c = delete_call) (watch_call :: more)) as Hall.
    { constructor; [by left |]. eapply Forall_impl; [exact Hmore | auto]. }
    destruct (KBE.watch_events self cluster (items w) (KBE.call watch_call st))
      as [st1 [o |]]; simpl in *.
    + exists (watch_call :: more). rewrite Hcalls, <- app_assoc. auto.
    + assert (∃ more0, KBE.api_calls st1 = KBE.api_calls st ++ more0
                       ∧ Forall (fun c => c = watch_call ∨ c = delete_call) more0) as Hst1.
      { exists (watch_call :: more). rewrite Hcalls, <- app_assoc. auto. }
      destruct (ending w); [exact Hst1 |].
      destruct (KBE.stop_event st1); [exact Hst1 |].
      destruct (IH st1) as (more' & -> & Hmore').
      exists ((watch_call :: more) ++ more'). rewrite Hcalls, <- !app_assoc.
      split; [reflexivity |]. apply Forall_app. auto.
Qed.

(** [submit] talks to the cluster in a fixed way: first the listing of the
    image-builder pods, then at most one create call, for the pod it built,
    and from then on only watches on its own name, with a timeout of 30
    seconds, and deletions of its own pod, with no grace period. *)
Theorem submit_calls st :
  ∃ creation more,
    KBE.api_calls (fst (KBE.submit hash urlparse_path self cluster st))
    = KBE.api_calls st
      ++ [list_namespaced_pod (KBE.namespace self) "component=image-builder,app=binder"]
      ++ creation ++ more
    ∧ (creation = []
       ∨ ∃ affinity,
           snd (KBE.get_affinity hash self cluster st) = Ok affinity
           ∧ creation = [create_namespaced_pod (KBE.namespace self)
                           (KBE.build_pod urlparse_path self affinity)])
    ∧ Forall (fun c => c = watch_call ∨ c = delete_call) more.
Proof.
  unfold KBE.submit.
  assert (KBE.api_calls (fst (KBE.get_affinity hash self cluster st))
          = KBE.api_calls st
            ++ [list_namespaced_pod (KBE.namespace self) "component=image-builder,app=binder"])
    as Hlist.
  { unfold KBE.get_affinity.
    destruct (KBE.image_builder_pods cluster); [| reflexivity].
    destruct (_ && _); reflexivity. }
  destruct (KBE.get_affinity hash self cluster st) as [st1 [affinity | e]]; simpl in *.
  - set (pod := KBE.build_pod urlparse_path self affinity).
    set (st2 := KBE.call _ (KBE.set_pod pod st1)).
    assert (KBE.api_calls st2
            = KBE.api_calls st
              ++ [list_namespaced_pod (KBE.namespace self) "component=image-builder,app=binder"]
              ++ [create_namespaced_pod (KBE.namespace self) pod]) as Hst2.
    { subst st2. simpl. rewrite Hlist, <- app_assoc. reflexivity. }
    assert (∃ more,
              KBE.api_calls (fst (KBE.watch_loop self cluster (KBE.watch_streams cluster) st2))
              = KBE.api_calls st
                ++ [list_namespaced_pod (KBE.namespace self)
                      "component=image-builder,app=binder"]
                ++ [create_namespaced_pod (KBE.namespace self) pod] ++ more
              ∧ Forall (fun c => c = watch_call ∨ c = delete_call) more) as Hloop.
    { destruct (watch_loop_calls (KBE.watch_streams cluster) st2) as (more & -> & Hmore).
      exists more. rewrite Hst2, <- !app_assoc. auto. }
    assert (∃ more,
              KBE.api_calls st2
              = KBE.api_calls st
                ++ [list_namespaced_pod (KBE.namespace self)
                      "component=image-builder,app=binder"]
                ++ [create_namespaced_pod (KBE.namespace self) pod] ++ more
              ∧ Forall (fun c => c = watch_call ∨ c = delete_call) more) as Hstop.
    { exists []. rewrite Hst2. auto. }
    exists [create_namespaced_pod (KBE.namespace self) pod].
    destruct (KBE.create_answer cluster) as [[status | | | | |] |];
      try (destruct (status =? 409));
      first [ destruct Hloop as (more & Hcalls & Hmore); exists more;
              split; [exact Hcalls | split; [right; eauto | exact Hmore]]
            | destruct Hstop as (more & Hcalls & Hmore); exists more;
              split; [exact Hcalls | split; [right; eauto | exact Hmore]] ].
  - exists [], []. split; [exact Hlist | auto].
Qed.

End Watching.

(** ** How the watch goes on and how it ends *)

Section Endings.
Variable self : KBE.Config.
Variable cluster : KBE.Cluster.

Abbreviation watch_call' :=
  (watch_namespaced_pod (KBE.namespace self) ("name=" +:+ KBE.name self) 30).
Abbreviation delete_call' :=
  (delete_namespaced_pod (KBE.name self) (KBE.namespace self) 0).

(** An event that is not a deletion becomes [self.pod], leaves the stop event
    alone and sends a delete call exactly when it reports the pod finished. *)
Lemma handle_event_effect f st :
  type f ≠ "DELETED" →
  KBE.api_calls (fst (KBE.handle_event self cluster f st))
  = KBE.api_calls st ++ (if decide (Reading.finished f) then [delete_call'] else [])
  ∧ KBE.pod (fst (KBE.handle_event self cluster f st)) = Some (object f)
  ∧ KBE.stop_event (fst (KBE.handle_event self cluster f st)) = KBE.stop_event st.
Proof.
  intros Hdel. unfold KBE.handle_event.
  destruct (String.eqb_spec (type f) "DELETED") as [Heq | _]; [done |].
  set (st1 := if negb _ then _ else _).
  assert (KBE.api_calls st1 = KBE.api_calls st ∧ KBE.pod st1 = Some (object f)
          ∧ KBE.stop_event st1 = KBE.stop_event st) as (Hc & Hp & Hs).
  { subst st1. destruct (negb _); [| by repeat split].
    destruct (dispatch_phase_state (status_phase (object f)) (KBE.set_pod (object f) st))
      as (-> & -> & ->). by repeat split. }
  pose proof (cleanup_state self cluster st1) as Hcl.
  unfold Reading.finished.
  destruct (String.eqb_spec (status_phase (object f)) "Succeeded") as [Hs1 | Hs1].
  { rewrite decide_True by auto.
    destruct (KBE.cleanup self cluster st1) as [st2 [[] | e]]; simpl in *; subst st2;
      simpl; rewrite Hc; auto. }
  destruct (String.eqb_spec (status_phase (object f)) "Failed") as [Hs2 | Hs2].
  { rewrite decide_True by auto.
    destruct (KBE.cleanup self cluster st1) as [st2 [[] | e]]; simpl in *; subst st2;
      simpl; rewrite Hc; auto. }
  rewrite decide_False by (intros [? | ?]; done).
  simpl. rewrite app_nil_r. auto.
Qed.

(** On a stretch of events that does not end [submit], with the stop event
    not set, the statuses are reported in the order of the events, one delete
    call is sent for each event that reports the pod finished, and the last
    event is what [self.pod] holds. *)
Theorem statuses_follow_events events st st' :
  KBE.stop_event st = false →
  KBE.watch_events self cluster (map Item events) st = (st', None) →
  Forall Reading.not_deletion events
  ∧ KBE.q st'
    = KBE.q st
      ++ omap (fun f => ProgressEvent BUILD_STATUS_CHANGE
                        <$> (Status <$> Reading.status_of_phase (status_phase (object f))))
           events
  ∧ KBE.api_calls st'
    = KBE.api_calls st ++ map (fun _ => delete_call') (filter Reading.finished events)
  ∧ (events ≠ [] → KBE.pod st' = object <$> last events).
Proof.
  revert st. induction events as [| f events IH]; intros st Hstop Hrun; simpl in *.
  - injection Hrun as <-. rewrite !app_nil_r. repeat split; [constructor | done].
  - destruct (handle_event_queue self cluster f st)
      as [(_ & s & _ & Hdel) | (Hnd & _ & _ & Hq)].
    { rewrite Hdel in Hrun. discriminate Hrun. }
    destruct (handle_event_effect f st Hnd) as (Hc & Hp & Hs).
    rewrite Hstop in Hq.
    destruct (KBE.handle_event self cluster f st) as [st1 [o |]]; [discriminate Hrun |].
    simpl in *.
    destruct (IH st1) as (Hall & Hq' & Hc' & Hp'); [congruence | exact Hrun |].
    split; [by constructor |]. split; [| split].
    + rewrite Hq', Hq, <- app_assoc. f_equal.
      destruct (Reading.status_of_phase _); reflexivity.
    + rewrite Hc', Hc, <- app_assoc. f_equal.
      rewrite filter_cons. destruct (decide (Reading.finished f)); reflexivity.
    + intros _. destruct events as [| f' events'].
      * simpl in *. injection Hrun as <-. exact Hp.
      * rewrite Hp' by done. reflexivity.
Qed.

Lemma watch_events_returned arriving st :
  snd (KBE.watch_events self cluster arriving st) = Some KBE.Returned →
  Exists (fun f => type f = "DELETED") (Reading.received arriving).
Proof.
  revert st. induction arriving as [| [f |] arriving IH]; intros st; simpl.
  - discriminate.
  - destruct (handle_event_queue self cluster f st)
      as [(Hdel & _) | (_ & Hret & _ & _)].
    { intros _. by left. }
    destruct (KBE.handle_event self cluster f st) as [st1 [o |]]; simpl in *.
    + intros Heq. by rewrite Heq in Hret.
    + intros Hrun. right. by apply (IH st1).
  - apply IH.
Qed.

(** [submit] leaves the watch loop by a plain return only when a deletion
    event has arrived or the stop event is set: a pod that succeeds and is
    never reported deleted keeps it watching. *)
Theorem watch_returns_only_when streams st st' :
  KBE.watch_loop self cluster streams st = (st', KBE.Returned) →
  KBE.stop_event st' = true
  ∨ Exists (fun f => type f = "DELETED")
      (concat (map (fun w => Reading.received (items w)) streams)).
Proof.
  revert st. induction streams as [| w streams IH]; intros st; simpl.
  - destruct (KBE.stop_event st) eqn:Hstop; [| discriminate].
    intros [= <-]. by left.
  - destruct (KBE.stop_event st) eqn:Hstop; [intros [= <-]; by left |].
    pose proof (watch_events_returned (items w) (KBE.call watch_call' st)) as Hret.
    destruct (KBE.watch_events self cluster (items w) (KBE.call watch_call' st))
      as [st1 [o |]]; simpl in *.
    + intros [= <- ->]. right. apply Exists_app. left. by apply Hret.
    + destruct (ending w); [discriminate |].
      destruct (KBE.stop_event st1) eqn:Hstop1; [intros [= <-]; by left |].
      intros Hrun. destruct (IH st1 Hrun) as [? | ?]; [by left |].
      right. apply Exists_app. by right.
Qed.

Lemma watch_events_no_delete arriving st :
  Forall (fun f => Reading.not_deletion f → ¬ Reading.finished f) (Reading.received arriving) →
  KBE.api_calls (fst (KBE.watch_events self cluster arriving st)) = KBE.api_calls st.
Proof.
  revert st. induction arriving as [| [f |] arriving IH]; intros st Hall; simpl in *.
  - reflexivity.
  - apply Forall_cons in Hall as [Hf Hall].
    destruct (String.eqb_spec (type f) "DELETED") as [Hdel | Hnd].
    + destruct (handle_event_queue self cluster f st)
        as [(_ & s & _ & ->) | (Hnd & _)]; [reflexivity | done].
    + destruct (handle_event_effect f st Hnd) as (Hc & _ & _).
      rewrite decide_False in Hc by (by apply Hf).
      rewrite app_nil_r in Hc.
      destruct (KBE.handle_event self cluster f st) as [st1 [o |]]; simpl in *;
        [exact Hc |].
      rewrite IH by exact Hall. exact Hc.
  - rewrite IH by exact Hall. reflexivity.
Qed.

(** The watch loop never deletes a pod that it has not seen finished: when no
    event other than a deletion reports [Succeeded] or [Failed], the only
    calls it makes are watches. *)
Theorem no_delete_before_finished streams st :
  Forall (fun f => Reading.not_deletion f → ¬ Reading.finished f)
    (concat (map (fun w => Reading.received (items w)) streams)) →
  ∃ watches : nat,
    KBE.api_calls (fst (KBE.watch_loop self cluster streams st))
    = KBE.api_calls st ++ replicate watches watch_call'
    ∧ (watches ≤ length streams)%nat.
Proof.
  revert st. induction streams as [| w streams IH]; intros st Hall; simpl in *.
  - exists 0%nat. simpl. rewrite app_nil_r. destruct (KBE.stop_event st); auto.
  - apply Forall_app in Hall as [Hw Hall].
    destruct (KBE.stop_event st); [exists 0%nat; simpl; rewrite app_nil_r; split; [done | lia] |].
    pose proof (watch_events_no_delete (items w) (KBE.call watch_call' st) Hw) as Hc.
    assert (∃ watches : nat,
              KBE.api_calls (fst (KBE.watch_events self cluster (items w)
                                    (KBE.call watch_call' st)))
              = KBE.api_calls st ++ replicate watches watch_call'
              ∧ (watches ≤ S (length streams))%nat) as Hone.
    { exists 1%nat. rewrite Hc. split; [reflexivity | lia]. }
    destruct (KBE.watch_events self cluster (items w) (KBE.call watch_call' st))
      as [st1 [o |]]; simpl in *; [exact Hone |].
    destruct (ending w); [exact Hone |].
    destruct (KBE.stop_event st1); [exact Hone |].
    destruct (IH st1 Hall) as (watches & -> & Hle).
    exists (S watches). rewrite Hc. simpl. rewrite <- app_assoc. split; [reflexivity | lia].
Qed.

(** When [cleanup] raises, [submit] raises: a pod is reported finished, the
    delete call that follows fails with something other than 404, and the
    exception leaves [submit] with the delete call made and the later events
    unread. *)
Theorem failed_cleanup_ends_watch w streams before f after st st1 e :
  KBE.stop_event st = false →
  items w = before ++ Item f :: after →
  KBE.watch_events self cluster before (KBE.call watch_call' st) = (st1, None) →
  type f ≠ "DELETED" →
  Reading.finished f →
  KBE.delete_answer cluster (length (List.filter is_delete (KBE.api_calls st1))) = Some e →
  e ≠ ApiException 404 →
  ∃ st2,
    KBE.watch_loop self cluster (w :: streams) st = (st2, KBE.Raised e)
    ∧ KBE.api_calls st2 = KBE.api_calls st1 ++ [delete_call'].
Proof.
  intros Hstop Hitems Hbefore Hnd Hfin Hanswer Hne. simpl.
  rewrite Hstop, Hitems, watch_events_app, Hbefore. cbn [KBE.watch_events].
  destruct (handle_event_effect f st1 Hnd) as (Hc & _ & _).
  rewrite decide_True in Hc by exact Hfin.
  assert (snd (KBE.handle_event self cluster f st1) = Some (KBE.Raised e)) as Hraise.
  { unfold KBE.handle_event.
    destruct (String.eqb_spec (type f) "DELETED") as [Heq | _]; [done |].
    set (st' := if negb _ then _ else _).
    assert (KBE.api_calls st' = KBE.api_calls st1) as Hsame.
    { subst st'. destruct (negb _); [| reflexivity].
      by destruct (dispatch_phase_state (status_phase (object f))
                     (KBE.set_pod (object f) st1)) as (-> & _). }
    assert (snd (KBE.cleanup self cluster st') = Raise e) as Hcleanup.
    { unfold KBE.cleanup. rewrite Hsame, Hanswer.
      destruct e as [status | | | | |]; try reflexivity.
      destruct (Z.eqb_spec status 404) as [-> | _]; [done | reflexivity]. }
    destruct Hfin as [Hphase | Hphase]; rewrite Hphase; simpl String.eqb; cbv iota;
      destruct (KBE.cleanup self cluster st') as [st2 [[] | e']]; simpl in *;
      congruence. }
  destruct (KBE.handle_event self cluster f st1) as [st2 [o |]]; simpl in *;
    [| discriminate Hraise].
  injection Hraise as ->. eauto.
Qed.

End Endings.

(** ** Log streaming, again *)

Section Logs.
Context {lib : PyLib}.
Variable self : KBE.Config.
Variable cluster : KBE.Cluster.

Lemma log_lines_only_logs arriving st :
  ∃ more,
    KBE.q (fst (KBE.log_lines arriving st)) = KBE.q st ++ more
    ∧ List.filter (fun e => negb (Reading.is_log e)) more = []
    ∧ KBE.api_calls (fst (KBE.log_lines arriving st)) = KBE.api_calls st.
Proof.
  revert st. induction arriving as [| [line |] arriving IH]; intros st; simpl.
  - exists []. by rewrite app_nil_r.
  - unfold KBE.handle_line.
    destruct (KBE.stop_event st); [exists []; by rewrite app_nil_r |].
    destruct (decode_utf8 line) as [text |]; [| exists []; by rewrite app_nil_r].
    match goal with
    | |- context [KBE.log_lines arriving ?s] => destruct (IH s) as (more & Hq & Hlog & Hc)
    end.
    eexists (_ :: more). rewrite Hq, Hc, q_progress, <- app_assoc.
    split; [reflexivity |]. simpl. by rewrite Hlog.
  - destruct (IH (KBE.stop st)) as (more & Hq & Hlog & Hc). exists more. auto.
Qed.

(** [stream_logs] makes one call, the read of the pod log in follow mode with
    the configured tail, and puts nothing but log messages on the queue. *)
Theorem stream_logs_only_logs st :
  ∃ more,
    KBE.q (fst (KBE.stream_logs self cluster st)) = KBE.q st ++ more
    ∧ List.filter (fun e => negb (Reading.is_log e)) more = []
    ∧ KBE.api_calls (fst (KBE.stream_logs self cluster st))
      = KBE.api_calls st
        ++ [read_namespaced_pod_log (KBE.name self) (KBE.namespace self) true
              (KBE.log_tail_lines self)].
Proof.
  unfold KBE.stream_logs.
  set (st0 := KBE.call _ st).
  destruct (KBE.pod_log cluster) as [log | e].
  - destruct (log_lines_only_logs (items log) st0) as (more & Hq & Hlog & Hc).
    exists more.
    destruct (KBE.log_lines (items log) st0) as [st1 [o |]]; simpl in *;
      [| destruct (ending log)]; simpl; rewrite Hq, Hc; auto.
  - exists []. simpl. by rewrite app_nil_r.
Qed.

Lemma log_lines_silent arriving st :
  KBE.stop_event st = true → KBE.q (fst (KBE.log_lines arriving st)) = KBE.q st.
Proof.
  revert st. induction arriving as [| [line |] arriving IH]; intros st Hstop; simpl.
  - reflexivity.
  - unfold KBE.handle_line. by rewrite Hstop.
  - by rewrite IH.
Qed.

(** Once the stop event is set, [stream_logs] forwards nothing. *)
Theorem stream_logs_silent_once_stopped st :
  KBE.stop_event st = true →
  KBE.q (fst (KBE.stream_logs self cluster st)) = KBE.q st.
Proof.
  intros Hstop. unfold KBE.stream_logs.
  set (st0 := KBE.call _ st).
  destruct (KBE.pod_log cluster) as [log | e]; [| reflexivity].
  pose proof (log_lines_silent (items log) st0 Hstop) as Hq.
  destruct (KBE.log_lines (items log) st0) as [st1 [o |]]; simpl in *;
    [| destruct (ending log)]; exact Hq.
Qed.

(** A line that is not UTF-8 is not wrapped like a line that is not JSON: the
    decoding raises outside the handler of parse errors, so [stream_logs]
    raises [UnicodeDecodeError], with the earlier lines forwarded and the
    later ones unread. *)
Theorem undecodable_line_ends_stream_logs log raws texts bad rest st :
  KBE.stop_event st = false →
  KBE.pod_log cluster = Ok log →
  items log = map Item raws ++ Item bad :: rest →
  Forall2 (fun raw text => decode_utf8 raw = Some text) raws texts →
  decode_utf8 bad = None →
  snd (KBE.stream_logs self cluster st) = KBE.Raised UnicodeDecodeError
  ∧ KBE.q (fst (KBE.stream_logs self cluster st)) = KBE.q st ++ map Rule.forwarded texts.
Proof.
  intros Hstop Hlog Hitems Hdec Hbad. unfold KBE.stream_logs. rewrite Hlog, Hitems.
  set (st0 := KBE.call _ st).
  destruct (log_lines_forward raws texts st0 Hstop Hdec) as (st1 & Hrun & Hq & Hs).
  rewrite log_lines_app, Hrun. cbn [KBE.log_lines].
  unfold KBE.handle_line. rewrite Hs, Hbad. simpl. split; [reflexivity | exact Hq].
Qed.

End Logs.

(** ** Node affinity, again *)

Section Affinity.
Context {lib : PyLib}.
Variable hash : json → string → Z.
Variable urlparse_path : string → string.
Variable self : KBE.Config.
Variable cluster : KBE.Cluster.

Lemma mapM_stops {A B} (f : A → result B) before x after ys e :
  mapM f before = Ok ys → f x = Raise e → mapM f (before ++ x :: after) = Raise e.
Proof.
  revert ys. induction before as [| a before IH]; intros ys; simpl.
  - intros _ ->. reflexivity.
  - destruct (f a) as [b | e']; simpl; [| discriminate].
    destruct (mapM f before) as [bs | e']; simpl; [| discriminate].
    intros _ Hx. by rewrite (IH bs eq_refl Hx).
Qed.

(** With sticky builds, an image-builder pod that is not scheduled yet (its
    spec has no node name) makes [get_affinity] raise [KeyError]. *)
Theorem unscheduled_builder_pod_raises listing scheduled node_names pod fields rest st :
  KBE.sticky_builds self = true →
  KBE.image_builder_pods cluster = Ok (JDict listing) →
  assoc "items" listing = Some (JList (scheduled ++ pod :: rest)) →
  mapM (fun pod => bind (getitem pod "spec") (fun spec => getitem spec "nodeName")) scheduled
  = Ok node_names →
  getitem pod "spec" = Ok (JDict fields) →
  assoc "nodeName" fields = None →
  snd (KBE.get_affinity hash self cluster st) = Raise (KeyError "nodeName").
Proof.
  intros Hs Hl Hitems Hnames Hspec Hnode.
  unfold KBE.get_affinity. rewrite Hl, Hs.
  destruct listing as [| kv listing']; [discriminate Hitems |].
  cbn [andb truthy truthy_json truthy_list snd].
  unfold getitem at 1. rewrite Hitems. cbn [bind iterate].
  rewrite (mapM_stops _ scheduled pod rest node_names (KeyError "nodeName") Hnames);
    [reflexivity |].
  rewrite Hspec. simpl. by rewrite Hnode.
Qed.

(** When [get_affinity] raises, [submit] raises the same exception before it
    creates anything: the listing is the only call made and the queue is
    untouched. *)
Theorem affinity_error_ends_submit st e :
  snd (KBE.get_affinity hash self cluster st) = Raise e →
  snd (KBE.submit hash urlparse_path self cluster st) = KBE.Raised e
  ∧ KBE.api_calls (fst (KBE.submit hash urlparse_path self cluster st))
    = KBE.api_calls st
      ++ [list_namespaced_pod (KBE.namespace self) "component=image-builder,app=binder"]
  ∧ KBE.q (fst (KBE.submit hash urlparse_path self cluster st)) = KBE.q st.
Proof.
  intros Haff. unfold KBE.submit.
  assert (fst (KBE.get_affinity hash self cluster st)
          = KBE.call (list_namespaced_pod (KBE.namespace self)
                        "component=image-builder,app=binder") st) as Hst.
  { unfold KBE.get_affinity.
    destruct (KBE.image_builder_pods cluster); [| reflexivity].
    destruct (_ && _); reflexivity. }
  destruct (KBE.get_affinity hash self cluster st) as [st1 [affinity | e']]; simpl in *;
    [discriminate Haff |].
  injection Haff as ->. subst st1. auto.
Qed.

End Affinity.

(** ** The cleaner, again *)

Section Sweeping.
Variable self : KC.Config.
Variable now : Z.
Variable delete_answer : nat → option exn.

Abbreviation rule' := (Rule.deletion_rule self now).
Abbreviation delete_of' build :=
  (delete_namespaced_pod (metadata_name build) (KC.namespace self) 0).
Abbreviation deletes st := (length (List.filter is_delete (KC.api_calls st))).

Lemma visit_phases build st p :
  default 0 (KC.phases (fst (KC.visit self now delete_answer build st)) !! p)
  = default 0 (KC.phases st !! p) + (if decide (status_phase build = p) then 1 else 0).
Proof.
  unfold KC.visit.
  assert (KC.phases (fst (KC.decide_delete self now build
                            (KC.count_phase (status_phase build) st)))
          = KC.phases (KC.count_phase (status_phase build) st)) as Hsame.
  { unfold KC.decide_delete. case_bool_decide; [reflexivity |].
    destruct (status_start_time build); [| reflexivity].
    destruct (_ && _); reflexivity. }
  destruct (KC.decide_delete self now build _) as [st1 delete]. simpl in Hsame.
  assert (default 0 (KC.phases st1 !! p)
          = default 0 (KC.phases st !! p)
            + (if decide (status_phase build = p) then 1 else 0)) as Hfinal.
  { rewrite Hsame. simpl.
    destruct (decide (status_phase build = p)) as [-> | Hne].
    - by rewrite lookup_insert_eq.
    - rewrite lookup_insert_ne by exact Hne. lia. }
  destruct delete; simpl; [| exact Hfinal].
  destruct (delete_answer _) as [[status | | | | |] |]; simpl;
    try (destruct (status =? 404); simpl); exact Hfinal.
Qed.

Lemma sweep_phases builds st p :
  snd (KC.sweep self now delete_answer builds st) = Ok tt →
  default 0 (KC.phases (fst (KC.sweep self now delete_answer builds st)) !! p)
  = default 0 (KC.phases st !! p)
    + Z.of_nat (length (filter (fun build => status_phase build = p) builds)).
Proof.
  revert st. induction builds as [| build builds IH]; intros st; simpl.
  - intros _. lia.
  - pose proof (visit_phases build st p) as Hvisit.
    destruct (KC.visit self now delete_answer build st) as [st1 [[] | e]]; simpl in *;
      [| discriminate].
    intros Hok. rewrite (IH st1 Hok), Hvisit, filter_cons.
    destruct (decide (status_phase build = p)); simpl; lia.
Qed.

(** The phase summary of a sweep that returns normally counts, for every
    phase, the listed pods in that phase. *)
Theorem phases_count_pods builds p :
  snd (KC.cleanup self now delete_answer (Ok builds)) = Ok tt →
  default 0 (KC.phases (fst (KC.cleanup self now delete_answer (Ok builds))) !! p)
  = Z.of_nat (length (filter (fun build => status_phase build = p) builds))
  ∧ last (KC.log (fst (KC.cleanup self now delete_answer (Ok builds))))
    = Some (KC.debug_phase_summary
              (KC.phases (fst (KC.cleanup self now delete_answer (Ok builds))))).
Proof.
  unfold KC.cleanup.
  set (st0 := KC.app_log _ (KC.call _ KC.initial)).
  pose proof (sweep_phases builds st0 p) as Hphases.
  destruct (KC.sweep self now delete_answer builds st0) as [st1 [[] | e]];
    simpl in *; [| discriminate].
  intros _. split.
  - destruct (truthy (KC.deleted st1)); simpl; rewrite Hphases by reflexivity;
      subst st0; simpl; rewrite lookup_empty; simpl; lia.
  - destruct (truthy (KC.deleted st1)); simpl; apply last_snoc.
Qed.

Lemma visit_answer build st :
  (Reading.tolerated (delete_answer (deletes st)) ∨ ¬ rule' build →
   snd (KC.visit self now delete_answer build st) = Ok tt)
  ∧ (∀ e, rule' build → delete_answer (deletes st) = Some e → e ≠ ApiException 404 →
       snd (KC.visit self now delete_answer build st) = Raise e).
Proof.
  unfold KC.visit.
  destruct (decide_delete_spec self now build (KC.count_phase (status_phase build) st))
    as (Hdec & Hcalls & _ & _).
  destruct (KC.decide_delete self now build _) as [st1 delete]. simpl in *.
  destruct delete.
  - simpl. rewrite Hcalls. split.
    + intros [[Ha | Ha] | Hno]; [by rewrite Ha | by rewrite Ha |].
      exfalso. apply Hno. by apply Hdec.
    + intros e _ Ha Hne. rewrite Ha.
      destruct e as [status | | | | |]; try reflexivity.
      destruct (Z.eqb_spec status 404) as [-> | _]; [done | reflexivity].
  - split; [reflexivity |].
    intros e Hrule. apply Hdec in Hrule. discriminate Hrule.
Qed.

Lemma sweep_app before after st :
  KC.sweep self now delete_answer (before ++ after) st
  = match KC.sweep self now delete_answer before st with
    | (st', Ok _) => KC.sweep self now delete_answer after st'
    | (st', Raise e) => (st', Raise e)
    end.
Proof.
  revert st. induction before as [| build before IH]; intros st; simpl.
  - reflexivity.
  - destruct (KC.visit self now delete_answer build st) as [st1 [[] | e]];
      [apply IH | reflexivity].
Qed.

Lemma sweep_goes_on builds st :
  (∀ j, (deletes st ≤ j < deletes st + length (filter rule' builds))%nat →
        Reading.tolerated (delete_answer j)) →
  snd (KC.sweep self now delete_answer builds st) = Ok tt.
Proof.
  revert st. induction builds as [| build builds IH]; intros st Hanswers; simpl.
  - reflexivity.
  - destruct (visit_answer build st) as [Hok _].
    destruct (visit_spec self now delete_answer build st) as (Hyes & Hno & _).
    rewrite filter_cons in Hanswers.
    destruct (decide (rule' build)) as [Hrule | Hrule].
    + destruct (Hyes Hrule) as [Hcalls _].
      assert (snd (KC.visit self now delete_answer build st) = Ok tt) as Hvisit.
      { apply Hok. left. apply Hanswers. simpl. lia. }
      destruct (KC.visit self now delete_answer build st) as [st1 [[] | e]];
        simpl in *; [| discriminate].
      apply IH. intros j Hj. apply Hanswers.
      rewrite Hcalls, List.filter_app, length_app in Hj. simpl in *. lia.
    + destruct (Hno Hrule) as (Hcalls & _ & Hvisit).
      destruct (KC.visit self now delete_answer build st) as [st1 [[] | e]];
        simpl in *; [| discriminate].
      apply IH. intros j Hj. apply Hanswers. rewrite Hcalls in Hj. lia.
Qed.

(** A delete call that fails with something other than 404 ends the sweep:
    the exception leaves [cleanup], the pod whose deletion failed is counted
    and is the last one a delete call is sent for, and no count is
    reported. *)
Theorem delete_error_ends_sweep before build after e :
  (∀ j, (j < length (filter rule' before))%nat → Reading.tolerated (delete_answer j)) →
  rule' build →
  delete_answer (length (filter rule' before)) = Some e →
  e ≠ ApiException 404 →
  snd (KC.cleanup self now delete_answer (Ok (before ++ build :: after))) = Raise e
  ∧ List.filter is_delete
      (KC.api_calls (fst (KC.cleanup self now delete_answer (Ok (before ++ build :: after)))))
    = map (fun b => delete_of' b) (filter rule' before ++ [build])
  ∧ KC.deleted (fst (KC.cleanup self now delete_answer (Ok (before ++ build :: after))))
    = Z.of_nat (length (filter rule' before)) + 1
  ∧ ∀ d n,
      KC.info_deleted d n
      ∉ KC.log (fst (KC.cleanup self now delete_answer (Ok (before ++ build :: after)))).
Proof.
  intros Hanswers Hrule Hanswer Hne.
  unfold KC.cleanup.
  set (st0 := KC.app_log _ (KC.call _ KC.initial)).
  rewrite sweep_app.
  assert (deletes st0 = 0%nat) as Hzero by reflexivity.
  assert (snd (KC.sweep self now delete_answer before st0) = Ok tt) as Hbefore.
  { apply sweep_goes_on. intros j Hj. apply Hanswers. lia. }
  destruct (sweep_spec self now delete_answer before st0)
    as (visited & skipped & Hsplit & Hcalls & Hdel & Hok & Hlog).
  rewrite (Hok Hbefore), app_nil_r in Hsplit. subst visited.
  destruct (KC.sweep self now delete_answer before st0) as [st1 [[] | e']];
    simpl in *; [| discriminate].
  destruct (visit_answer build st1) as [_ Hraise].
  destruct (visit_spec self now delete_answer build st1) as (Hyes & _ & Hlog1).
  destruct (Hyes Hrule) as [Hcalls1 Hdel1].
  assert (deletes st1 = length (filter rule' before)) as Hk.
  { rewrite Hcalls. simpl. by rewrite filter_delete_calls, length_map. }
  rewrite Hk in Hraise. specialize (Hraise e Hrule Hanswer Hne).
  destruct (KC.visit self now delete_answer build st1) as [st2 [[] | e']];
    simpl in *; [discriminate |].
  injection Hraise as ->. split; [reflexivity |]. split; [| split].
  - rewrite Hcalls1, Hcalls. simpl.
    by rewrite List.filter_app, filter_delete_calls, map_app.
  - rewrite Hdel1, Hdel. lia.
  - intros d n Hin. apply Hlog1, Hlog in Hin.
    apply list_elem_of_singleton in Hin. discriminate Hin.
Qed.

(** With [max_age] set to zero the age of a pod plays no part: a sweep that
    returns normally deletes the pods in a finished phase and no other. *)
Theorem zero_max_age_disables_age_check builds :
  KC.max_age self = 0 →
  snd (KC.cleanup self now delete_answer (Ok builds)) = Ok tt →
  List.filter is_delete (KC.api_calls (fst (KC.cleanup self now delete_answer (Ok builds))))
  = map (fun b => delete_of' b)
      (filter (fun b => status_phase b ∈ Rule.finished_phases) builds).
Proof.
  intros Hzero Hok.
  destruct (cleanup_spec self now delete_answer builds)
    as (visited & skipped & Hsplit & Hcalls & _ & Hall & _).
  rewrite (Hall Hok), app_nil_r in Hsplit. subst visited.
  rewrite Hcalls. simpl. rewrite filter_delete_calls. f_equal.
  apply list_filter_iff. intros b. unfold Rule.deletion_rule. rewrite Hzero.
  split; [intros [H | (_ & H & _)]; done | by left].
Qed.

End Sweeping.

(** ** FakeBuild *)

Section Fake.
Context {lib : PyLib}.

Lemma fake_phase_messages stop_before phases check q :
  (∀ c, (check ≤ c < check + length phases)%nat → FakeBuild.is_set stop_before c = false) →
  ∃ new,
    FakeBuild.phase_messages stop_before check phases q = (q ++ new, false)
    ∧ length new = length phases
    ∧ List.filter FakeBuild.is_status_change new = [].
Proof.
  revert check q. induction phases as [| phase phases IH]; intros check q Hunset; simpl.
  - exists []. by rewrite app_nil_r.
  - rewrite Hunset by (simpl; lia).
    match goal with
    | |- context [FakeBuild.phase_messages _ _ _ (q ++ [?e])] =>
        destruct (IH (S check) (q ++ [e])) as (new & -> & Hlen & Hnone);
          [intros c Hc; apply Hunset; simpl; lia |];
          exists (e :: new)
    end.
    rewrite <- app_assoc. simpl. rewrite Hlen. auto.
Qed.

Lemma fake_step_messages stop_before steps check i q :
  (∀ c, (check ≤ c < check + steps)%nat → FakeBuild.is_set stop_before c = false) →
  ∃ new,
    FakeBuild.step_messages stop_before check i steps q = (q ++ new, false)
    ∧ length new = steps
    ∧ List.filter FakeBuild.is_status_change new = [].
Proof.
  revert check i q. induction steps as [| steps IH]; intros check i q Hunset;
    cbn [FakeBuild.step_messages].
  - exists []. by rewrite app_nil_r.
  - rewrite Hunset by lia.
    match goal with
    | |- context [FakeBuild.step_messages _ _ _ _ (q ++ [?e])] =>
        destruct (IH (S check) (S i) (q ++ [e])) as (new & -> & Hlen & Hnone);
          [intros c Hc; apply Hunset; lia |];
          exists (e :: new)
    end.
    rewrite <- app_assoc. cbn [length List.filter FakeBuild.is_status_change FakeBuild.kind].
    rewrite Hlen. auto.
Qed.

Lemma fake_phase_messages_stopped stop_before phases check q k :
  (∀ c, (check ≤ c < check + k)%nat → FakeBuild.is_set stop_before c = false) →
  FakeBuild.is_set stop_before (check + k) = true →
  (k < length phases)%nat →
  ∃ new,
    FakeBuild.phase_messages stop_before check phases q = (q ++ new, true)
    ∧ length new = k
    ∧ List.filter FakeBuild.is_status_change new = [].
Proof.
  revert check q k. induction phases as [| phase phases IH]; intros check q k Hunset Hset Hk;
    simpl in *; [lia |].
  destruct k as [| k].
  - rewrite Nat.add_0_r in Hset. rewrite Hset. exists []. by rewrite app_nil_r.
  - rewrite Hunset by lia.
    match goal with
    | |- context [FakeBuild.phase_messages _ _ _ (q ++ [?e])] =>
        destruct (IH (S check) (q ++ [e]) k) as (new & -> & Hlen & Hnone);
          [intros c Hc; apply Hunset; lia
          | by replace (S check + k)%nat with (check + S k)%nat by lia
          | lia |];
          exists (e :: new)
    end.
    rewrite <- app_assoc. simpl. rewrite Hlen. auto.
Qed.

Lemma fake_step_messages_stopped stop_before steps check i q k :
  (∀ c, (check ≤ c < check + k)%nat → FakeBuild.is_set stop_before c = false) →
  FakeBuild.is_set stop_before (check + k) = true →
  (k < steps)%nat →
  ∃ new,
    FakeBuild.step_messages stop_before check i steps q = (q ++ new, true)
    ∧ length new = k
    ∧ List.filter FakeBuild.is_status_change new = [].
Proof.
  revert check i q k. induction steps as [| steps IH]; intros check i q k Hunset Hset Hk;
    cbn [FakeBuild.step_messages]; [lia |].
  destruct k as [| k].
  - rewrite Nat.add_0_r in Hset. rewrite Hset. exists []. by rewrite app_nil_r.
  - rewrite Hunset by lia.
    match goal with
    | |- context [FakeBuild.step_messages _ _ _ _ (q ++ [?e])] =>
        destruct (IH (S check) (S i) (q ++ [e]) k) as (new & -> & Hlen & Hnone);
          [intros c Hc; apply Hunset; lia
          | by replace (S check + k)%nat with (check + S k)%nat by lia
          | lia |];
          exists (e :: new)
    end.
    rewrite <- app_assoc. cbn [length List.filter FakeBuild.is_status_change FakeBuild.kind].
    rewrite Hlen. auto.
Qed.

(** [FakeBuild.stream_logs] checks the stop event nine times, before each of
    its nine messages.  When [stop()] comes before check number [k], it puts
    [k] messages on the queue and no status change; when it does not come in
    time, it puts eleven events on the queue, of which the last but one is
    the only status change, [BUILT]. *)
Theorem fake_stream_logs_events stop_before q :
  ∃ new,
    FakeBuild.stream_logs stop_before q = q ++ new
    ∧ match stop_before with
      | Some k =>
          if decide (k < 9)%nat
          then length new = k ∧ List.filter FakeBuild.is_status_change new = []
          else length new = 11%nat
               ∧ List.filter FakeBuild.is_status_change new
                 = [{| FakeBuild.kind := FakeBuild.member BUILD_STATUS_CHANGE;
                       FakeBuild.payload := Status BUILT |}]
      | None =>
          length new = 11%nat
          ∧ List.filter FakeBuild.is_status_change new
            = [{| FakeBuild.kind := FakeBuild.member BUILD_STATUS_CHANGE;
                  FakeBuild.payload := Status BUILT |}]
      end.
Proof.
  assert ((∀ c, (c < 9)%nat → FakeBuild.is_set stop_before c = false) →
          ∃ new,
            FakeBuild.stream_logs stop_before q = q ++ new
            ∧ length new = 11%nat
            ∧ List.filter FakeBuild.is_status_change new
              = [{| FakeBuild.kind := FakeBuild.member BUILD_STATUS_CHANGE;
                    FakeBuild.payload := Status BUILT |}]) as Hfull.
  { intros Hunset. unfold FakeBuild.stream_logs.
    destruct (fake_phase_messages stop_before ["Pending"; "Running"; "Succeed"; "Building"] 0 q)
      as (new1 & -> & Hlen1 & Hnone1); [intros c Hc; apply Hunset; simpl in Hc; lia |].
    destruct (fake_step_messages stop_before 5 4 0 (q ++ new1))
      as (new2 & -> & Hlen2 & Hnone2); [intros c Hc; apply Hunset; lia |].
    eexists (new1 ++ new2 ++ [_; _]).
    split; [by rewrite <- !app_assoc |].
    rewrite !length_app, !List.filter_app, Hlen1, Hlen2, Hnone1, Hnone2. simpl. auto. }
  destruct stop_before as [k |].
  - destruct (decide (k < 9)%nat) as [Hk | Hk].
    + assert (∀ c, (c < k)%nat → FakeBuild.is_set (Some k) c = false) as Hunset.
      { intros c Hc. unfold FakeBuild.is_set. apply bool_decide_eq_false. lia. }
      assert (FakeBuild.is_set (Some k) k = true) as Hset.
      { unfold FakeBuild.is_set. apply bool_decide_eq_true. lia. }
      unfold FakeBuild.stream_logs.
      destruct (decide (k < 4)%nat) as [Hphase | Hphase].
      * destruct (fake_phase_messages_stopped (Some k)
                    ["Pending"; "Running"; "Succeed"; "Building"] 0 q k)
          as (new & -> & Hlen & Hnone);
          [intros c Hc; apply Hunset; lia | exact Hset | simpl; lia |].
        exists new. auto.
      * destruct (fake_phase_messages (Some k)
                    ["Pending"; "Running"; "Succeed"; "Building"] 0 q)
          as (new1 & -> & Hlen1 & Hnone1);
          [intros c Hc; apply Hunset; simpl in Hc; lia |].
        destruct (fake_step_messages_stopped (Some k) 5 4 0 (q ++ new1) (k - 4))
          as (new2 & -> & Hlen2 & Hnone2);
          [ intros c Hc; apply Hunset; lia
          | by replace (4 + (k - 4))%nat with k by lia
          | lia |].
        exists (new1 ++ new2). rewrite <- app_assoc. split; [reflexivity |].
        rewrite length_app, List.filter_app, Hlen1, Hlen2, Hnone1, Hnone2.
        simpl in *. split; [lia | reflexivity].
    + apply Hfull. intros c Hc. unfold FakeBuild.is_set. apply bool_decide_eq_false. lia.
  - apply Hfull. reflexivity.
Qed.

End Fake.

(** ** Concrete runs of the further properties *)

(** The pod is seen pending, running, then succeeded: two statuses are
    reported and the pod is deleted once. *)
Lemma statuses_follow_events_witness :
  let self := Sample.executor false in
  let cluster := Sample.cluster (Sample.pod_list []) [] [] in
  let events :=
    [ {| type := "ADDED"; object := Sample.reported "Pending" |};
      {| type := "MODIFIED"; object := Sample.reported "Running" |};
      {| type := "MODIFIED"; object := Sample.reported "Succeeded" |} ] in
  let run := KBE.watch_events self cluster (map Item events) KBE.initial in
  snd run = None
  ∧ KBE.q (fst run)
    = [ProgressEvent BUILD_STATUS_CHANGE (Status PENDING);
       ProgressEvent BUILD_STATUS_CHANGE (Status RUNNING)]
  ∧ KBE.api_calls (fst run) = [delete_namespaced_pod "build-org-2drepo-0123ab" "default" 0].
Proof.
  intros self cluster events run.
  destruct (statuses_follow_events self cluster events KBE.initial (fst run) eq_refl eq_refl)
    as (_ & Hq & Hc & _).
  split; [reflexivity |]. split; [rewrite Hq | rewrite Hc]; reflexivity.
Defined.

(** A run that returns with the stop event not set has seen a deletion. *)
Lemma watch_returns_only_when_witness :
  let self := Sample.executor false in
  let cluster := Sample.cluster (Sample.pod_list []) [] [] in
  let streams :=
    [ {| items := [Sample.event "MODIFIED" "Running"; Sample.event "DELETED" "Succeeded"];
         ending := None |} ] in
  snd (KBE.watch_loop self cluster streams KBE.initial) = KBE.Returned
  ∧ KBE.stop_event (fst (KBE.watch_loop self cluster streams KBE.initial)) = false
  ∧ Exists (fun f => type f = "DELETED")
      (concat (map (fun w => Reading.received (items w)) streams)).
Proof.
  intros self cluster streams.
  split; [reflexivity |]. split; [reflexivity |].
  destruct (watch_returns_only_when self cluster streams KBE.initial
              (fst (KBE.watch_loop self cluster streams KBE.initial)) eq_refl)
    as [Hstop | Hdeleted]; [discriminate Hstop | exact Hdeleted].
Defined.

(** Two watch streams on which the pod is pending, then running: two watch
    calls and nothing else. *)
Lemma no_delete_before_finished_witness :
  let self := Sample.executor false in
  let cluster := Sample.cluster (Sample.pod_list []) [] [] in
  let streams :=
    [ {| items := [Sample.event "ADDED" "Pending"; Sample.event "MODIFIED" "Running"];
         ending := None |};
      {| items := [Sample.event "MODIFIED" "Running"]; ending := None |} ] in
  ∃ watches : nat,
    KBE.api_calls (fst (KBE.watch_loop self cluster streams KBE.initial))
    = replicate watches (watch_namespaced_pod "default" "name=build-org-2drepo-0123ab" 30)
    ∧ (watches ≤ 2)%nat.
Proof.
  intros self cluster streams.
  apply (no_delete_before_finished self cluster streams KBE.initial).
  repeat constructor; intros _ [H | H]; discriminate H.
Defined.

(** The pod is seen failed and the delete call is answered with status 500:
    [FAILED] is reported, the delete call is made, and [submit] raises. *)
Lemma failed_cleanup_ends_watch_witness :
  let self := Sample.executor false in
  let cluster :=
    Sample.answering None (Sample.always 500) (Sample.cluster (Sample.pod_list []) [] []) in
  let w := {| items := [Sample.event "MODIFIED" "Failed"; Sample.event "DELETED" "Failed"];
              ending := None |} in
  ∃ st2,
    KBE.watch_loop self cluster [w] KBE.initial = (st2, KBE.Raised (ApiException 500))
    ∧ KBE.api_calls st2
      = [watch_namespaced_pod "default" "name=build-org-2drepo-0123ab" 30;
         delete_namespaced_pod "build-org-2drepo-0123ab" "default" 0].
Proof.
  intros self cluster w.
  apply (failed_cleanup_ends_watch self cluster w [] []
           {| type := "MODIFIED"; object := Sample.reported "Failed" |}
           [Sample.event "DELETED" "Failed"] KBE.initial
           (KBE.call (watch_namespaced_pod "default" "name=build-org-2drepo-0123ab" 30)
              KBE.initial)
           (ApiException 500)).
  - reflexivity.
  - reflexivity.
  - reflexivity.
  - discriminate.
  - right. reflexivity.
  - reflexivity.
  - discriminate.
Defined.

(** With the stop event set beforehand, nothing of a log of two lines is
    forwarded. *)
Lemma stream_logs_silent_once_stopped_witness :
  KBE.q (fst (KBE.stream_logs (lib := py_model) (Sample.executor false)
                (Sample.cluster (Sample.pod_list []) [] [Item "{}"; Item "not json"])
                (KBE.stop KBE.initial)))
  = [].
Proof.
  apply (stream_logs_silent_once_stopped (lib := py_model) (Sample.executor false)
           (Sample.cluster (Sample.pod_list []) [] [Item "{}"; Item "not json"])
           (KBE.stop KBE.initial)).
  reflexivity.
Defined.

(** A log whose second line is the single byte 255. *)
Lemma undecodable_line_ends_stream_logs_witness :
  let bad := String (ascii_of_nat 255) "" in
  let run :=
    KBE.stream_logs (lib := py_model) (Sample.executor false)
      (Sample.cluster (Sample.pod_list []) [] [Item "{}"; Item bad; Item "[]"])
      KBE.initial in
  snd run = KBE.Raised UnicodeDecodeError
  ∧ KBE.q (fst run) = [ProgressEvent LOG_MESSAGE (Text "{}")].
Proof.
  intros bad run.
  destruct (undecodable_line_ends_stream_logs (lib := py_model) (Sample.executor false)
              (Sample.cluster (Sample.pod_list []) [] [Item "{}"; Item bad; Item "[]"])
              {| items := [Item "{}"; Item bad; Item "[]"]; ending := None |}
              ["{}"] ["{}"] bad [Item "[]"] KBE.initial)
    as [Hraise Hq].
  - reflexivity.
  - reflexivity.
  - reflexivity.
  - repeat constructor.
  - reflexivity.
  - split; [exact Hraise |]. subst run. rewrite Hq. reflexivity.
Defined.

(** Sticky builds, one image-builder pod on a node and one that is not
    scheduled. *)
Lemma unscheduled_builder_pod_raises_witness :
  let cluster :=
    Sample.cluster
      (Sample.pod_list [Sample.builder_pod_on "node-a"; JDict [("spec", JDict [])]]) [] [] in
  snd (KBE.get_affinity Sample.hash (Sample.executor true) cluster KBE.initial)
  = Raise (KeyError "nodeName").
Proof.
  intros cluster.
  eapply (unscheduled_builder_pod_raises Sample.hash (Sample.executor true) cluster)
    with (scheduled := [Sample.builder_pod_on "node-a"]) (node_names := [JStr "node-a"])
         (pod := JDict [("spec", JDict [])]) (fields := []) (rest := []);
    reflexivity.
Defined.

(** Sticky builds and no image-builder pod: [submit] raises [IndexError]
    after the listing, and no pod is created. *)
Lemma affinity_error_ends_submit_witness :
  let run :=
    KBE.submit (lib := py_model) Sample.hash Sample.urlparse_path (Sample.executor true)
      (Sample.cluster (Sample.pod_list [])
         [[Sample.event "MODIFIED" "Running"]] [])
      KBE.initial in
  snd run = KBE.Raised IndexError
  ∧ KBE.api_calls (fst run)
    = [list_namespaced_pod "default" "component=image-builder,app=binder"]
  ∧ KBE.q (fst run) = [].
Proof.
  intros run.
  apply (affinity_error_ends_submit (lib := py_model) Sample.hash Sample.urlparse_path
           (Sample.executor true)
           (Sample.cluster (Sample.pod_list []) [[Sample.event "MODIFIED" "Running"]] [])
           KBE.initial IndexError).
  reflexivity.
Defined.

(** Sticky builds with image-builder pods on two nodes: the affinity pins to
    the node that the sample hash ranks first. *)
Lemma get_affinity_sticky_witness :
  let cluster :=
    Sample.cluster
      (Sample.pod_list [Sample.builder_pod_on "node-a"; Sample.builder_pod_on "node-bb"])
      [] [] in
  snd (KBE.get_affinity Sample.hash (Sample.executor true) cluster KBE.initial)
  = Ok (node_affinity_preferred 100 "kubernetes.io/hostname" "In" [JStr "node-bb"]).
Proof.
  intros cluster.
  edestruct (get_affinity_sticky Sample.hash (Sample.executor true) cluster)
    with (items := [Sample.builder_pod_on "node-a"; Sample.builder_pod_on "node-bb"])
         (node_names := [JStr "node-a"; JStr "node-bb"]) (st := KBE.initial)
    as (best & Hbest & Hterm).
  - reflexivity.
  - reflexivity.
  - discriminate.
  - reflexivity.
  - reflexivity.
  - discriminate.
  - rewrite Hterm. injection Hbest as <-. reflexivity.
Defined.

(** A sweep of three pods, two of them running. *)
Lemma phases_count_pods_witness :
  let now := 100000 * 1000000 in
  let builds :=
    [Sample.build_pod "build-a" "Running" 99999;
     Sample.build_pod "build-b" "Failed" 99999;
     Sample.build_pod "build-c" "Running" 99999] in
  default 0 (KC.phases (fst (KC.cleanup (Sample.cleaner 14400) now (fun _ => None)
                               (Ok builds))) !! "Running")
  = 2.
Proof.
  intros now builds.
  destruct (phases_count_pods (Sample.cleaner 14400) now (fun _ => None) builds "Running"
              eq_refl) as [Hcount _].
  rewrite Hcount. reflexivity.
Defined.

(** Two failed pods and a running one in between; the first delete call is
    answered with 404, the second with 500. *)
Lemma delete_error_ends_sweep_witness :
  let now := 100000 * 1000000 in
  let answers k :=
    match k with O => Some (ApiException 404) | S _ => Some (ApiException 500) end in
  let run :=
    KC.cleanup (Sample.cleaner 14400) now answers
      (Ok ([Sample.build_pod "build-a" "Failed" 99999;
            Sample.build_pod "build-b" "Running" 99999]
           ++ Sample.build_pod "build-c" "Succeeded" 99999
              :: [Sample.build_pod "build-d" "Failed" 99999])) in
  snd run = Raise (ApiException 500)
  ∧ KC.deleted (fst run) = 2
  ∧ List.filter is_delete (KC.api_calls (fst run))
    = [delete_namespaced_pod "build-a" "default" 0;
       delete_namespaced_pod "build-c" "default" 0].
Proof.
  intros now answers run.
  destruct (delete_error_ends_sweep (Sample.cleaner 14400) now answers
              [Sample.build_pod "build-a" "Failed" 99999;
               Sample.build_pod "build-b" "Running" 99999]
              (Sample.build_pod "build-c" "Succeeded" 99999)
              [Sample.build_pod "build-d" "Failed" 99999]
              (ApiException 500))
    as (Hraise & Hcalls & Hdeleted & _).
  - intros j Hj. vm_compute in Hj. destruct j as [| j]; [by right | lia].
  - left. vm_compute. apply list_elem_of_further, list_elem_of_here.
  - reflexivity.
  - discriminate.
  - split; [exact Hraise |]. split.
    + subst run. rewrite Hdeleted. reflexivity.
    + subst run. rewrite Hcalls. reflexivity.
Defined.

(** With [max_age] zero, a pod that has been running for a day stays. *)
Lemma zero_max_age_disables_age_check_witness :
  let now := 100000 * 1000000 in
  let builds :=
    [Sample.build_pod "build-a" "Running" 13600;
     Sample.build_pod "build-b" "Evicted" 99999] in
  List.filter is_delete
    (KC.api_calls (fst (KC.cleanup (Sample.cleaner 0) now (fun _ => None) (Ok builds))))
  = [delete_namespaced_pod "build-b" "default" 0].
Proof.
  intros now builds.
  rewrite (zero_max_age_disables_age_check (Sample.cleaner 0) now (fun _ => None) builds
             eq_refl eq_refl).
  reflexivity.
Defined.
